(** * PPO agent core ([agents.py]): a shallow embedding and its properties

    The development follows the methods of [PPOAgent] one module at a time:
    the minibatch partitioner, the advantage estimator, the losses, the
    experience collector, the recurrent-state recomputation, and the
    returns and the advantage normalisation of the training loop.

    Conventions.
    - Python [int] counts ([num_workers], [horizon], [num_minibatch],
      [driver._num_steps]) are [nat]; the one place where the source
      subtracts two of them and uses the possibly negative result as a
      slice bound is computed in [Z].
    - A Python exception is a value of [exn]; a method that can raise
      returns [result].
    - A dense tensor is its shape together with its indexing function
      ([Tensor.t1], [Tensor.t2]); the value of the function outside the
      shape is irrelevant and never observed by a statement below. *)

From stdpp Require Import base list.
From Stdlib Require Import ZArith.
From Stdlib Require Reals Lra.

(** ** Exceptions *)

Inductive exn : Type :=
  | AssertionError
  | ZeroDivisionError
  | IndexError
  | ValueError
  | TypeError
  | InvalidArgumentError.

Inductive result (A : Type) : Type :=
  | Ok (a : A)
  | Raise (e : exn).
Arguments Ok {A} a.
Arguments Raise {A} e.

Definition bind {A B : Type} (m : result A) (k : A → result B) : result B :=
  match m with
  | Ok a => k a
  | Raise e => Raise e
  end.

Declare Scope py_scope.
Delimit Scope py_scope with py.
Notation "'do' x <- m ; k" := (bind m (λ x, k))
  (at level 10, x name, m at level 100, k at level 200,
   only parsing) : py_scope.
Open Scope py_scope.

(** A list comprehension [[f x for x in xs]] whose body may raise: the
    elements are evaluated left to right and the first exception wins. *)
Fixpoint comprehension {A B : Type} (f : A → result B) (xs : list A)
  : result (list B) :=
  match xs with
  | [] => Ok []
  | x :: xs' =>
      do y <- f x;
      do ys <- comprehension f xs';
      Ok (y :: ys)
  end.

(** [l[i]] for a non-negative [i]. *)
Definition getitem {A : Type} (l : list A) (i : nat) : result A :=
  match l !! i with
  | Some a => Ok a
  | None => Raise IndexError
  end.

(** [a // b] and [a % b] on non-negative ints. *)
Definition floordiv (a b : nat) : result nat :=
  if decide (b = 0) then Raise ZeroDivisionError else Ok (a / b).

Definition pymod (a b : nat) : result nat :=
  if decide (b = 0) then Raise ZeroDivisionError else Ok (a mod b).

(** [range(n)] is [seq 0 n]. [range(0, stop, step)] for a positive [step]
    has [ceil(stop / step)] elements [0, step, 2*step, ...]; a zero step
    raises [ValueError]. *)
Definition range_step (stop step : nat) : result (list nat) :=
  if decide (step = 0) then Raise ValueError
  else Ok ((λ k, k * step) <$> seq 0 ((stop + step - 1) / step)).

(** [l[j:j+step]] for non-negative bounds: out-of-range bounds are clamped. *)
Definition slice {A : Type} (l : list A) (j step : nat) : list A :=
  take step (drop j l).

(** ** The random source and [random.shuffle] *)

Module Random.

(** The generator is the stream of its future raw draws. *)
Definition rng : Type := nat → nat.

(** [randbelow(n)], called with [n > 0] only. *)
Definition randbelow (g : rng) (n : nat) : nat * rng :=
  (g 0 mod n, λ k, g (S k)).

(** [x[i], x[j] = x[j], x[i]]: both reads happen before the two writes.
    [shuffle] only calls it with [j <= i < len(x)]. *)
Definition swap {A : Type} (x : list A) (i j : nat) : list A :=
  match x !! j, x !! i with
  | Some xj, Some xi => <[j:=xi]> (<[i:=xj]> x)
  | _, _ => x
  end.

(** The loop [for i in reversed(range(1, len(x)))], entered at index [i]:
    [j = randbelow(i + 1)], then the exchange. *)
Fixpoint shuffle_from {A : Type} (i : nat) (g : rng) (x : list A)
  : list A * rng :=
  match i with
  | 0 => (x, g)
  | S i' =>
      let '(j, g') := randbelow g (S i) in
      shuffle_from i' g' (swap x i j)
  end.

Definition shuffle {A : Type} (g : rng) (x : list A) : list A * rng :=
  shuffle_from (length x - 1) g x.

End Random.

(** ** The agent *)

(** The fields of [PPOAgent] that the partitioner reads;
    [driver_num_steps] is [self.driver._num_steps]. *)
Record PPOAgent : Type := {
  num_workers : nat;
  horizon : nat;
  driver_num_steps : nat;
}.

Module Minibatch.
Import Random.

(** The body of [for i in range(len(ids))] for one worker: the optional
    in-place shuffle of [ids[i]], then the re-binding of [ids[i]] to its
    list of slices. *)
Definition chunk_worker (use_rnn : bool) (hor step : nat)
    (g : rng) (ids_i : list nat) : result (list (list nat) * rng) :=
  let '(ids_i, g) := if use_rnn then (ids_i, g) else shuffle g ids_i in
  do starts <- range_step hor step;
  Ok ((λ j, slice ids_i j step) <$> starts, g).

(** The whole loop, threading the generator from worker to worker. *)
Fixpoint chunk_workers (use_rnn : bool) (hor step : nat)
    (g : rng) (ids : list (list nat)) : result (list (list (list nat)) * rng) :=
  match ids with
  | [] => Ok ([], g)
  | ids_i :: rest =>
      do r <- chunk_worker use_rnn hor step g ids_i;
      do rs <- chunk_workers use_rnn hor step r.2 rest;
      Ok (r.1 :: rs.1, rs.2)
  end.

(** [compute_minibatch_ids(num_minibatch, use_rnn)] together with the
    state in which it leaves the ambient random source. The returned list
    is indexed [group][worker][position]. *)
Definition compute_minibatch_ids_rng (self : PPOAgent) (num_minibatch : nat)
    (use_rnn : bool) (g : rng) : result (list (list (list nat)) * rng) :=
  do step <- floordiv (horizon self) num_minibatch;
  do r <- pymod (driver_num_steps self) step;
  if negb (r =? 0) then Raise AssertionError else
  let ids := (λ _, seq 0 (horizon self)) <$> seq 0 (num_workers self) in
  do ids <- chunk_workers use_rnn (horizon self) step g ids;
  do groups <-
    comprehension (λ i,
      comprehension (λ j, do ids_j <- getitem ids.1 j; getitem ids_j i)
                    (seq 0 (num_workers self)))
      (seq 0 num_minibatch);
  Ok (groups, ids.2).

Definition compute_minibatch_ids (self : PPOAgent) (num_minibatch : nat)
    (use_rnn : bool) (g : rng) : result (list (list (list nat))) :=
  do r <- compute_minibatch_ids_rng self num_minibatch use_rnn g;
  Ok r.1.

(** The time indices that the groups hold for worker [w], group after
    group. *)
Definition worker_indices (groups : list (list (list nat))) (w : nat)
  : list nat :=
  concat ((λ grp, default [] (grp !! w)) <$> groups).

(** What one worker's index list [p] is after the optional shuffle of
    [ids]: a rearrangement of it, and the list itself when [use_rnn]. *)
Definition shuffled (use_rnn : bool) (p ids : list nat) : Prop :=
  p ≡ₚ ids ∧ (use_rnn = true → p = ids).

Definition strictly_increasing (l : list nat) : Prop :=
  ∀ a b x y, a < b → l !! a = Some x → l !! b = Some y → x < y.

End Minibatch.

(** ** Dense tensors *)

Module Tensor.

(** Rank 1: shape [[len]]. *)
Record t1 (A : Type) : Type := mk1 { len : nat; at1 : nat → A }.
Arguments mk1 {A} len at1.
Arguments len {A} t.
Arguments at1 {A} t i.

(** Rank 2: shape [[dim0, dim1]]. *)
Record t2 (A : Type) : Type := mk2 { dim0 : nat; dim1 : nat; at2 : nat → nat → A }.
Arguments mk2 {A} dim0 dim1 at2.
Arguments dim0 {A} t.
Arguments dim1 {A} t.
Arguments at2 {A} t i j.

(** Broadcasting of one dimension of two operands: equal sizes, or one of
    them 1; anything else is rejected by TensorFlow. *)
Definition broadcast_dim (a b : nat) : result nat :=
  if decide (a = b) then Ok a
  else if decide (a = 1) then Ok b
  else if decide (b = 1) then Ok a
  else Raise InvalidArgumentError.

(** Where index [i] of the broadcast result reads an operand of size [d]. *)
Definition bix (d i : nat) : nat := if decide (d = 1) then 0 else i.

(** Unary elementwise operations, among them [scalar * tensor] and
    [tf.cast]. *)
Definition map1 {A B : Type} (f : A → B) (a : t1 A) : t1 B :=
  mk1 (len a) (λ i, f (at1 a i)).

Definition map2d {A B : Type} (f : A → B) (a : t2 A) : t2 B :=
  mk2 (dim0 a) (dim1 a) (λ i j, f (at2 a i j)).

(** Binary elementwise operations. *)
Definition zip1 {A B C : Type} (f : A → B → C) (a : t1 A) (b : t1 B)
  : result (t1 C) :=
  do n <- broadcast_dim (len a) (len b);
  Ok (mk1 n (λ i, f (at1 a (bix (len a) i)) (at1 b (bix (len b) i)))).

Definition zip2 {A B C : Type} (f : A → B → C) (a : t2 A) (b : t2 B)
  : result (t2 C) :=
  do n <- broadcast_dim (dim0 a) (dim0 b);
  do m <- broadcast_dim (dim1 a) (dim1 b);
  Ok (mk2 n m (λ i j,
        f (at2 a (bix (dim0 a) i) (bix (dim1 a) j))
          (at2 b (bix (dim0 b) i) (bix (dim1 b) j)))).

(** [t[:, 1:]] and [t[:, :-1]]; both clamp on an empty axis. *)
Definition tail_cols {A : Type} (t : t2 A) : t2 A :=
  mk2 (dim0 t) (dim1 t - 1) (λ i j, at2 t i (S j)).

Definition init_cols {A : Type} (t : t2 A) : t2 A :=
  mk2 (dim0 t) (dim1 t - 1) (λ i j, at2 t i j).

(** [t[:, i]] for [i >= 0], and [t[:, -1]]. *)
Definition col {A : Type} (t : t2 A) (i : nat) : result (t1 A) :=
  if decide (i < dim1 t) then Ok (mk1 (dim0 t) (λ w, at2 t w i))
  else Raise InvalidArgumentError.

Definition last_col {A : Type} (t : t2 A) : result (t1 A) :=
  if decide (dim1 t = 0) then Raise InvalidArgumentError
  else col t (dim1 t - 1).

(** [t[i, start:]] for [i >= 0] and a start already normalised to
    [0 <= start <= dim1]. *)
Definition row_from {A : Type} (t : t2 A) (i start : nat) : result (t1 A) :=
  if decide (i < dim0 t)
  then Ok (mk1 (dim1 t - start) (λ k, at2 t i (start + k)))
  else Raise InvalidArgumentError.

(** [tf.expand_dims(v, axis=0)], [tf.expand_dims(v, axis=1)] and
    [tf.squeeze(t, axis=1)]. *)
Definition expand_dims0 {A : Type} (v : t1 A) : t2 A :=
  mk2 1 (len v) (λ _ j, at1 v j).

Definition expand_dims1 {A : Type} (v : t1 A) : t2 A :=
  mk2 (len v) 1 (λ i _, at1 v i).

Definition squeeze1 {A : Type} (t : t2 A) : result (t1 A) :=
  if decide (dim1 t = 1) then Ok (mk1 (dim0 t) (λ i, at2 t i 0))
  else Raise InvalidArgumentError.

(** [tf.stack(vs, axis=1)]: at least one vector, all of one length. *)
Definition stack1 {A : Type} (vs : list (t1 A)) : result (t2 A) :=
  match vs with
  | [] => Raise ValueError
  | v :: _ =>
      if decide (Forall (λ u, len u = len v) vs)
      then Ok (mk2 (len v) (length vs)
                   (λ i j, match vs !! j with
                           | Some u => at1 u i
                           | None => at1 v i
                           end))
      else Raise InvalidArgumentError
  end.

(** [tf.concat(vs, axis=0)] of rank-1 tensors (or of tensors whose
    trailing axes are kept inside the element type). *)
Definition append1 {A : Type} (a b : t1 A) : t1 A :=
  mk1 (len a + len b)
      (λ i, if decide (i < len a) then at1 a i else at1 b (i - len a)).

Fixpoint concat0 {A : Type} (vs : list (t1 A)) : result (t1 A) :=
  match vs with
  | [] => Raise ValueError
  | [v] => Ok v
  | v :: vs' => do r <- concat0 vs'; Ok (append1 v r)
  end.

(** The entries in row-major order, as [tf.reduce_mean(t, axis=None)]
    visits them. *)
Definition entries {A : Type} (t : t2 A) : list A :=
  i ← seq 0 (dim0 t); (λ j, at2 t i j) <$> seq 0 (dim1 t).

End Tensor.

(** A loop [for x in xs: acc = f(acc, x)] whose body may raise. *)
Fixpoint foldM {A B : Type} (f : B → A → result B) (b : B) (xs : list A)
  : result B :=
  match xs with
  | [] => Ok b
  | x :: xs' => do b' <- f b x; foldM f b' xs'
  end.

(** [l[-1]]. *)
Definition last_item {A : Type} (l : list A) : result A :=
  match last l with
  | Some a => Ok a
  | None => Raise IndexError
  end.

(** ** The advantage estimator *)

(** The arithmetic the estimator uses. [Sc] is the type of the Python scalars
    [discount] and [gae_parameter], [F] the element type of the tensors.
    No law is assumed of any operation, so what is proved of the estimator
    holds for rounding arithmetic as well, with the products associated the
    way the source associates them. *)
Class Arith (Sc F : Type) : Type := {
  smul : Sc → Sc → Sc;          (* float * float *)
  one : Sc;                  (* the literal 1.0 *)
  const : Sc → F;            (* a scalar converted to the tensor's dtype *)
  add : F → F → F;
  sub : F → F → F;
  mul : F → F → F;
}.

Module Advantage.
Import Tensor.

Section WithArith.
Context {Sc F : Type} `{!Arith Sc F}.

(** [s * t] for a Python scalar [s], on one element. *)
Definition scale (s : Sc) (x : F) : F := mul (const s) x.

(** One iteration of the backward loop:
    [advantages.append(deltas[:, i]
       + discount*gae_parameter*non_terminal[:, i]*advantages[-1])]. *)
Definition gae_step (discount gae_parameter : Sc) (deltas non_terminal : t2 F)
    (advantages : list (t1 F)) (i : nat) : result (list (t1 F)) :=
  do delta_i <- col deltas i;
  do nt_i <- col non_terminal i;
  do prev <- last_item advantages;
  do carried <- zip1 mul (map1 (scale (smul discount gae_parameter)) nt_i) prev;
  do a <- zip1 add delta_i carried;
  Ok (advantages ++ [a]).

(** [deltas = rewards + discount*non_terminal*values[:, 1:]
              - values[:, :-1]]. *)
Definition td_residuals (discount : Sc) (rewards values non_terminal : t2 F)
  : result (t2 F) :=
  do bootstrap <-
    zip2 mul (map2d (scale discount) non_terminal) (tail_cols values);
  do target <- zip2 add rewards bootstrap;
  zip2 sub target (init_cols values).

Definition compute_advantages (discount gae_parameter : Sc)
    (rewards values dones : t2 F) : result (t2 F) :=
  let non_terminal := map2d (sub (const one)) dones in
  do deltas <- td_residuals discount rewards values non_terminal;
  do last <- last_col deltas;
  do advantages <-
    foldM (gae_step discount gae_parameter deltas non_terminal)
          [last] (reverse (seq 0 (dim1 deltas - 1)));
  stack1 (reverse advantages).

(** The quantities of the specification, element by element. *)
Definition nonterminal (dones : t2 F) (w t : nat) : F :=
  sub (const one) (at2 dones w t).

Definition delta (discount : Sc) (rewards values dones : t2 F) (w t : nat) : F :=
  sub (add (at2 rewards w t)
           (mul (mul (const discount) (nonterminal dones w t))
                (at2 values w (S t))))
      (at2 values w t).

(** The advantage at time [t] when [d] steps remain after it in the
    rollout: the backward recursion unrolled from the last step. *)
Fixpoint gae_at (discount gae_parameter : Sc) (rewards values dones : t2 F)
    (d t w : nat) : F :=
  match d with
  | 0 => delta discount rewards values dones w t
  | S d' =>
      add (delta discount rewards values dones w t)
          (mul (mul (const (smul discount gae_parameter))
                    (nonterminal dones w t))
               (gae_at discount gae_parameter rewards values dones d' (S t) w))
  end.

(** The list [advantages] when the loop still has the indices below [n] to
    visit: entry [q] is the advantage column of time [H - 1 - q]. *)
Definition gae_inv (discount gae_parameter : Sc) (rewards values dones : t2 F)
    (W H n : nat) (acc : list (t1 F)) : Prop :=
  length acc = H - n ∧
  ∀ q, q < H - n → ∃ v, acc !! q = Some v ∧ len v = W ∧
    ∀ w, w < W →
      at1 v w = gae_at discount gae_parameter rewards values dones q (H - 1 - q) w.

End WithArith.

(** Integer arithmetic, to run the estimator on small inputs. *)
#[export] Instance Z_arith : Arith Z Z :=
  {| smul := Z.mul; one := 1%Z; const := (λ z, z);
     add := Z.add; sub := Z.sub; mul := Z.mul |}.

End Advantage.

(** ** The loss functions *)

(** The losses are modelled over the real numbers: [tf.exp], [tf.maximum]
    and [tf.clip_by_value] are the real functions they round. *)
Module Loss.
Import Reals.
Import Tensor.
Local Open Scope R_scope.

(** [tf.clip_by_value(x, lo, hi)] is [maximum(minimum(x, hi), lo)]. *)
Definition clip_by_value (x lo hi : R) : R := Rmax (Rmin x hi) lo.

Definition reduce_sum (t : t2 R) : R := foldr Rplus 0 (entries t).

(** [tf.reduce_mean(t, axis=None)]. Of an empty tensor TensorFlow returns
    NaN; here the quotient by zero is whatever [/ 0] is in [R]. *)
Definition reduce_mean (t : t2 R) : R :=
  reduce_sum t / INR (dim0 t * dim1 t).

Definition ppo_clip_loss (advantages old_logprobs logprobs : t2 R)
    (clip_range : R) : result R :=
  do diff <- zip2 Rminus logprobs old_logprobs;
  let prob_ratio := map2d exp diff in
  do unclipped <- zip2 Rmult (map2d Ropp advantages) prob_ratio;
  let clipped_ratio :=
    map2d (λ r, clip_by_value r (1 - clip_range) (1 + clip_range)) prob_ratio in
  do clipped <- zip2 Rmult (map2d Ropp advantages) clipped_ratio;
  do loss <- zip2 Rmax unclipped clipped;
  Ok (reduce_mean loss).

(** The formula of the specification: the mean over all elements of
    [max(-A*r, -A*clip(r, 1-eps, 1+eps))] with [r = exp(new - old)]. *)
Definition surrogate (a old new eps : R) : R :=
  let r := exp (new - old) in
  Rmax (- a * r) (- a * clip_by_value r (1 - eps) (1 + eps)).

Fixpoint sum_upto (n : nat) (f : nat → R) : R :=
  match n with
  | 0 => 0
  | S n' => sum_upto n' f + f n'
  end.

Definition mean_over (W T : nat) (f : nat → nat → R) : R :=
  sum_upto W (λ w, sum_upto T (λ t, f w t)) / INR (W * T).

(** [value_function_loss(values, returns)]:
    [tf.reduce_mean((values - returns)**2, axis=None)]. *)
Definition value_function_loss (values returns : t2 R) : result R :=
  do diff <- zip2 Rminus values returns;
  Ok (reduce_mean (map2d (λ x, x ^ 2) diff)).

End Loss.

(** Real arithmetic for the estimator: scalars and tensor elements are both
    real numbers. *)
Module RealArith.
Import Reals.


End RealArith.

(** ** The tensor arithmetic of [train]

    Of the training loop, the two computations on the collected tensors
    that stand between the estimator and the losses. *)

Module Train.
Import Reals.
Import Tensor Loss.

Section WithArith.
Context {Sc F : Type} `{!Arith Sc F}.


End WithArith.

Local Open Scope R_scope.



End Train.

(** ** The collaborators: policy, network and driver *)

Module Policy.
Import Tensor.

(** [tf_agents.trajectories.StepType]. *)
Inductive StepType : Type := FIRST | MID | LAST.

#[export] Instance StepType_eq_dec : EqDecision StepType.
Proof. solve_decision. Defined.

Section WithTypes.
Context {Obs Act Rew F Hid : Type}.

(** One recurrent state [(state, steps)]: the hidden-state tensor, one row
    per worker, and the per-worker steps-since-reset counter. *)
Record cell : Type := mk_cell { hidden : t1 Hid; steps : t1 Z }.

(** The policy state is the tuple [(state, steps)] when actor and critic
    share parameters, and the pair of two such tuples
    [((state, steps), (state, steps))], actor first, when they do not. *)
Inductive policy_state : Type :=
  | Shared (c : cell)
  | Split (p v : cell).

(** What a call of the network returns:
    [(action, log_prob, value, entropy, new_cell_states)]. *)
Record outputs : Type := {
  out_action : t2 Act;
  out_logprob : t2 F;
  out_value : t2 F;
  out_entropy : t2 F;
  out_state : policy_state;
}.

(** [atari_policy.AtariPolicy] with its [actor_critic_network]; the
    arguments of the network are [inputs], [dones], [cell_states], [action]
    and [training]. Neither is defined in [agents.py]. *)
Record policy : Type := {
  shared_params : bool;
  get_initial_state : nat → policy_state;
  actor_critic_network :
    t2 Obs → t2 F → policy_state → option (t2 Act) → bool → result outputs;
}.

(** The final [TimeStep] of a run, batched over the workers. *)
Record TimeStep : Type := {
  ts_step_type : t1 StepType;
  ts_observation : t1 Obs;
}.

(** One batched step as the driver hands it to its observers;
    [policy_info] is the pair (log-probability, value). *)
Record Trajectory : Type := {
  step_type : t1 StepType;
  observation : t1 Obs;
  action : t1 Act;
  policy_info : t1 F * t1 F;
  reward : t1 Rew;
}.

(** [driver.run(policy_state, maximum_iterations)]: the batched steps it
    passes to its observers, in order, and the pair it returns. *)
Record Driver : Type := {
  run : policy_state → nat → list Trajectory * (TimeStep * policy_state);
}.

End WithTypes.

Arguments cell : clear implicits.
Arguments policy_state : clear implicits.
Arguments outputs : clear implicits.
Arguments policy : clear implicits.
Arguments TimeStep : clear implicits.
Arguments Trajectory : clear implicits.
Arguments Driver : clear implicits.

End Policy.

(** ** The experience collector *)

Module Collector.
Import Tensor Policy.

Section WithTypes.
Context {Obs Act Rew F Hid : Type}.
(** [tf.cast(_, tf.float32)] of a boolean and of a reward. *)
Variable cast_bool : bool → F.
Variable cast_reward : Rew → F.

(** The dictionary [experiences]: its keys are fixed and its values are of
    different types, so it is a record with one field per key. *)
Record Experiences : Type := {
  observations : t2 Obs;
  rewards : t2 F;
  dones : t2 F;
  actions : t2 Act;
  probs : t2 F;
  values : t2 F;
  last_policy_state : policy_state Hid;
}.

(** A batched step of [W] workers. *)
Definition batched (W : nat) (s : Trajectory Obs Act Rew F) : Prop :=
  len (step_type s) = W ∧ len (observation s) = W ∧ len (action s) = W ∧
  len (policy_info s).1 = W ∧ len (policy_info s).2 = W ∧ len (reward s) = W.

#[export] Instance batched_dec W s : Decision (batched W s).
Proof. unfold batched. apply _. Defined.

(** [x == StepType.LAST], elementwise. *)
Definition is_last (v : t1 StepType) : t1 bool :=
  map1 (λ s, bool_decide (s = LAST)) v.

(** The stacked done flags of line 168, before the cast:
    [[step.step_type == LAST for step in memory[1:]] + [squeeze(last_done, 1)]]
    stacked along axis 1. *)
Definition stack_dones (memory : list (Trajectory Obs Act Rew F))
    (last_done : t2 bool) : result (t2 bool) :=
  do final <- squeeze1 last_done;
  stack1 (((λ s, is_last (step_type s)) <$> drop 1 memory) ++ [final]).

(** [collect_experiences(policy_state)]. The rollout buffer [self.memory]
    is passed in and returned: the driver's observer appends to it, and the
    method clears it before returning. *)
Definition collect_experiences (self : PPOAgent)
    (driver : Driver Obs Act Rew F Hid) (pol : policy Obs Act F Hid)
    (memory : list (Trajectory Obs Act Rew F))
    (state : policy_state Hid)
  : result (Experiences * list (Trajectory Obs Act Rew F)) :=
  let '(steps, (last_time_step, last_policy_state)) :=
    run driver state (horizon self) in
  let memory := memory ++ steps in
  let last_observation := expand_dims1 (ts_observation last_time_step) in
  let last_done := expand_dims1 (is_last (ts_step_type last_time_step)) in
  do out <- actor_critic_network pol last_observation
              (map2d cast_bool last_done) last_policy_state None false;
  do last_value <- squeeze1 (out_value out);
  do observations <- stack1 (observation <$> memory);
  do rewards <- stack1 (reward <$> memory);
  do dones <- stack_dones memory last_done;
  do actions <- stack1 (action <$> memory);
  do probs <- stack1 ((λ s, (policy_info s).1) <$> memory);
  do values <- stack1 (((λ s, (policy_info s).2) <$> memory) ++ [last_value]);
  Ok ({| observations := observations;
         rewards := map2d cast_reward rewards;
         dones := map2d cast_bool dones;
         actions := actions;
         probs := probs;
         values := values;
         last_policy_state := last_policy_state |},
      []).

End WithTypes.

End Collector.

(** ** Recomputing the recurrent state *)

Module Recurrent.
Import Tensor Policy.

(** Where the slice [t[j:]] of an axis of size [d] starts: a negative [j]
    counts from the end, and the result is clamped to [0..d]. *)
Definition slice_start (d : nat) (j : Z) : nat :=
  if (j <? 0)%Z then Z.to_nat (Z.max 0 (Z.of_nat d + j))
  else Z.to_nat (Z.min j (Z.of_nat d)).

(** [t[i, j:]]. *)
Definition row_suffix {A : Type} (t : t2 A) (i : nat) (j : Z) : result (t1 A) :=
  row_from t i (slice_start (dim1 t) j).

(** [v[i]]. *)
Definition item {A : Type} (v : t1 A) (i : nat) : result A :=
  if decide (i < len v) then Ok (at1 v i) else Raise InvalidArgumentError.

Section WithTypes.
Context {Obs Act F Hid : Type}.

(** [last_policy_state[1]] or [last_policy_state[0][1]], by [shared_params].
    A state whose structure does not fit the flag is a type error. *)
Definition rollout_steps (pol : policy Obs Act F Hid)
    (last_policy_state : policy_state Hid) : result (t1 Z) :=
  if shared_params pol then
    match last_policy_state with
    | Shared c => Ok (steps c)
    | Split _ _ => Raise TypeError
    end
  else
    match last_policy_state with
    | Split p _ => Ok (steps p)
    | Shared _ => Raise TypeError
    end.

(** The body of [for i in range(self.num_workers)]: the state appended to
    [cell_states] for worker [i]. *)
Definition recompute_worker (self : PPOAgent) (pol : policy Obs Act F Hid)
    (observations : t2 Obs) (dones : t2 F) (actions : t2 Act)
    (steps : t1 Z) (i : nat) : result (policy_state Hid) :=
  do steps_i <- item steps i;
  if decide (steps_i = 0%Z) then Ok (get_initial_state pol 1)
  else
    let j := (Z.of_nat (horizon self) - steps_i)%Z in
    do worker_obs <- row_suffix observations i j;
    do worker_dones <- row_suffix dones i j;
    do worker_acts <- row_suffix actions i j;
    do out <- actor_critic_network pol
                (expand_dims0 worker_obs) (expand_dims0 worker_dones)
                (get_initial_state pol 1) (Some (expand_dims0 worker_acts)) true;
    Ok (out_state out).

Definition as_shared (s : policy_state Hid) : result (cell Hid) :=
  match s with
  | Shared c => Ok c
  | Split _ _ => Raise TypeError
  end.

Definition as_split (s : policy_state Hid) : result (cell Hid * cell Hid) :=
  match s with
  | Split p v => Ok (p, v)
  | Shared _ => Raise TypeError
  end.

(** The per-worker states put back into one batched state by
    [tf.concat(_, axis=0)], component by component. *)
Definition batch_states (pol : policy Obs Act F Hid)
    (cell_states : list (policy_state Hid)) : result (policy_state Hid) :=
  if shared_params pol then
    do cs <- comprehension as_shared cell_states;
    do h <- concat0 (hidden <$> cs);
    do s <- concat0 (steps <$> cs);
    Ok (Shared (mk_cell h s))
  else
    do cs <- comprehension as_split cell_states;
    do ph <- concat0 ((λ c, hidden c.1) <$> cs);
    do ps <- concat0 ((λ c, steps c.1) <$> cs);
    do vh <- concat0 ((λ c, hidden c.2) <$> cs);
    do vs <- concat0 ((λ c, steps c.2) <$> cs);
    Ok (Split (mk_cell ph ps) (mk_cell vh vs)).

(** [recompute_cell_states(observations, dones, actions, last_policy_state)]:
    the loop that appends one state per worker to [cell_states] is the
    comprehension of its body over [range(self.num_workers)]. *)
Definition recompute_cell_states (self : PPOAgent) (pol : policy Obs Act F Hid)
    (observations : t2 Obs) (dones : t2 F) (actions : t2 Act)
    (last_policy_state : policy_state Hid) : result (policy_state Hid) :=
  do steps <- rollout_steps pol last_policy_state;
  do cell_states <-
    comprehension (recompute_worker self pol observations dones actions steps)
                  (seq 0 (num_workers self));
  batch_states pol cell_states.

(** The state of worker [i] inside a batched state: row [i] of every
    component. *)
Definition cell_row (c : cell Hid) (i : nat) : Hid * Z :=
  (at1 (hidden c) i, at1 (steps c) i).

Definition worker_state (s : policy_state Hid) (i : nat)
  : (Hid * Z) + ((Hid * Z) * (Hid * Z)) :=
  match s with
  | Shared c => inl (cell_row c i)
  | Split p v => inr (cell_row p i, cell_row v i)
  end.

Definition unit_cell (c : cell Hid) : Prop :=
  len (hidden c) = 1 ∧ len (steps c) = 1.

(** A per-worker state as the network returns it for a batch of one: of the
    structure that [shared_params] announces, every component with one
    row. *)
Definition worker_batch (pol : policy Obs Act F Hid) (s : policy_state Hid)
  : Prop :=
  match s with
  | Shared c => shared_params pol = true ∧ unit_cell c
  | Split p v => shared_params pol = false ∧ unit_cell p ∧ unit_cell v
  end.

#[export] Instance unit_cell_dec c : Decision (unit_cell c).
Proof. unfold unit_cell. apply _. Defined.

#[export] Instance worker_batch_dec pol s : Decision (worker_batch pol s).
Proof. destruct s; cbn; apply _. Defined.

End WithTypes.

End Recurrent.

(** ** Doubles for the collaborators

    Small concrete collaborators on which the methods can be run:
    observations and actions are numbers, tensors hold integers, and a
    hidden-state row is the list of observations the network was fed for
    that row, so that a recomputed state shows which timesteps were
    replayed. *)

Module Doubles.
Import Tensor Policy.

Definition fed (inputs : t2 nat) : cell (list nat) :=
  mk_cell (mk1 (dim0 inputs)
               (λ b, (λ t, at2 inputs b t) <$> seq 0 (dim1 inputs)))
          (mk1 (dim0 inputs) (λ _, Z.of_nat (dim1 inputs))).

Definition blank (n : nat) : cell (list nat) :=
  mk_cell (mk1 n (λ _, [])) (mk1 n (λ _, 0%Z)).

Definition recording_policy : policy nat nat Z (list nat) :=
  {| shared_params := true;
     get_initial_state := λ n, Shared (blank n);
     actor_critic_network := λ inputs dones cell_states action training,
       Ok {| out_action := mk2 (dim0 inputs) (dim1 inputs) (λ _ _, 0);
             out_logprob := mk2 (dim0 inputs) (dim1 inputs) (λ _ _, 0%Z);
             out_value := mk2 (dim0 inputs) (dim1 inputs) (λ _ _, 0%Z);
             out_entropy := mk2 (dim0 inputs) (dim1 inputs) (λ _ _, 0%Z);
             out_state := Shared (fed inputs) |} |}.

(** A driver that hands over two batched steps of one worker, the second
    one ending an episode, and stops on a mid-episode step. *)
Definition two_steps : list (Trajectory nat nat Z Z) :=
  [ {| step_type := mk1 1 (λ _, FIRST); observation := mk1 1 (λ _, 10);
       action := mk1 1 (λ _, 0);
       policy_info := (mk1 1 (λ _, 0%Z), mk1 1 (λ _, 0%Z));
       reward := mk1 1 (λ _, 1%Z) |};
    {| step_type := mk1 1 (λ _, LAST); observation := mk1 1 (λ _, 11);
       action := mk1 1 (λ _, 1);
       policy_info := (mk1 1 (λ _, 0%Z), mk1 1 (λ _, 0%Z));
       reward := mk1 1 (λ _, 0%Z) |} ].

Definition two_step_driver : Driver nat nat Z Z (list nat) :=
  {| run := λ state _,
       (two_steps,
        ({| ts_step_type := mk1 1 (λ _, MID);
            ts_observation := mk1 1 (λ _, 12) |},
         state)) |}.

End Doubles.

(** * Properties *)

(** ** The error monad *)

Section Monad.
Context {A B : Type}.

Lemma comprehension_ok (f : A → result B) (h : A → B) (xs : list A) :
  (∀ x, x ∈ xs → f x = Ok (h x)) → comprehension f xs = Ok (h <$> xs).
Proof.
  induction xs as [|x xs IH]; intros Hf; [done|].
  cbn. rewrite (Hf x) by left. cbn. rewrite IH; [done|].
  intros y Hy. apply Hf. by right.
Qed.

Lemma comprehension_inv (f : A → result B) (xs : list A) (ys : list B) :
  comprehension f xs = Ok ys → Forall2 (λ x y, f x = Ok y) xs ys.
Proof.
  revert ys. induction xs as [|x xs IH]; intros ys; cbn.
  - intros [= <-]. constructor.
  - destruct (f x) as [y|e] eqn:Hx; cbn; [|done].
    destruct (comprehension f xs) as [ys'|e]; cbn; [|done].
    intros [= <-]. constructor; auto.
Qed.

Lemma comprehension_total (f : A → result B) (xs : list A) :
  (∀ x, x ∈ xs → ∃ y, f x = Ok y) → ∃ ys, comprehension f xs = Ok ys.
Proof.
  induction xs as [|x xs IH]; intros Hf; [by eexists|].
  destruct (Hf x) as [y Hy]; [left|].
  destruct IH as [ys Hys]; [intros; apply Hf; by right|].
  cbn. rewrite Hy. cbn. rewrite Hys. by eexists.
Qed.

End Monad.

Lemma fmap_default_seq {A B : Type} (h : A → B) (d : A) (l : list A) :
  (λ j, h (default d (l !! j))) <$> seq 0 (length l) = h <$> l.
Proof.
  apply list_eq. intros i. rewrite !list_lookup_fmap.
  destruct (decide (i < length l)) as [Hi|Hi].
  - rewrite lookup_seq_lt by done. cbn.
    destruct (lookup_lt_is_Some_2 l i Hi) as [x ->]. done.
  - rewrite lookup_seq_ge by lia. rewrite lookup_ge_None_2 by lia. done.
Qed.

Lemma fmap_self {A : Type} (f : A → A) (l : list A) :
  (∀ x, f x = x) → f <$> l = l.
Proof. intros Hf. induction l as [|x l IH]; cbn; [done|]. by rewrite Hf, IH. Qed.

(** ** [random.shuffle] rearranges its argument *)

Section Shuffle.
Import Random.
Context {A : Type}.
Implicit Types x l : list A.

Lemma insert_head_perm l j a y :
  l !! j = Some y → y :: <[j:=a]> l ≡ₚ a :: l.
Proof.
  revert j. induction l as [|b l IH]; intros [|j] Hj; simplify_eq/=.
  - apply perm_swap.
  - rewrite perm_swap. rewrite (IH j Hj). apply perm_swap.
Qed.

Lemma swap_perm x i j : swap x i j ≡ₚ x.
Proof.
  unfold swap.
  destruct (x !! j) as [xj|] eqn:Hj; [|done].
  destruct (x !! i) as [xi|] eqn:Hi; [|done].
  revert i j Hi Hj.
  induction x as [|a l IH]; intros [|i] [|j] Hi Hj; simplify_eq/=.
  - done.
  - by apply insert_head_perm.
  - by apply insert_head_perm.
  - f_equiv. by apply IH.
Qed.

Lemma shuffle_from_perm i g x : (shuffle_from i g x).1 ≡ₚ x.
Proof.
  revert g x. induction i as [|i IH]; intros g x; cbn; [done|].
  rewrite IH. apply swap_perm.
Qed.

Lemma shuffle_perm g x : (shuffle g x).1 ≡ₚ x.
Proof. apply shuffle_from_perm. Qed.

End Shuffle.

(** ** The minibatch partitioner *)

Section Partitioner.
Import Random Minibatch.
Implicit Types (self : PPOAgent) (p ids : list nat).

Lemma chunk_worker_ok use_rnn hor step g ids :
  step ≠ 0 →
  ∃ p g', shuffled use_rnn p ids ∧
    chunk_worker use_rnn hor step g ids =
      Ok ((λ k, slice p (k * step) step) <$> seq 0 ((hor + step - 1) / step), g').
Proof.
  intros Hstep. unfold chunk_worker, range_step.
  destruct (decide (step = 0)) as [|_]; [done|].
  destruct use_rnn.
  - exists ids, g. split; [by split|]. cbn. by rewrite <-list_fmap_compose.
  - destruct (shuffle g ids) as [p g'] eqn:Hsh. exists p, g'. split.
    + split; [|done]. change p with (p, g').1. rewrite <-Hsh. apply shuffle_perm.
    + cbn. by rewrite <-list_fmap_compose.
Qed.

Lemma chunk_workers_ok use_rnn hor step g idss :
  step ≠ 0 →
  ∃ ps g', Forall2 (shuffled use_rnn) ps idss ∧
    chunk_workers use_rnn hor step g idss =
      Ok ((λ p, (λ k, slice p (k * step) step)
                  <$> seq 0 ((hor + step - 1) / step)) <$> ps, g').
Proof.
  intros Hstep. revert g. induction idss as [|ids idss IH]; intros g.
  - exists [], g. split; [constructor|done].
  - destruct (chunk_worker_ok use_rnn hor step g ids Hstep) as (p & g1 & Hp & Hw).
    destruct (IH g1) as (ps & g2 & Hps & Heq).
    exists (p :: ps), g2. split; [by constructor|].
    cbn [chunk_workers]. rewrite Hw. cbn. rewrite Heq. done.
Qed.

Lemma slices_concat {A : Type} (p : list A) step n :
  concat ((λ k, slice p (k * step) step) <$> seq 0 n) = take (n * step) p.
Proof.
  induction n as [|n IH]; [done|].
  rewrite seq_S, fmap_app, concat_app, IH. cbn. rewrite app_nil_r.
  unfold slice. rewrite take_take_drop. f_equal. lia.
Qed.

Lemma slice_seq hor k n : k + n ≤ hor → slice (seq 0 hor) k n = seq k n.
Proof.
  intros Hle. unfold slice. rewrite drop_seq, take_seq. cbn. f_equal. lia.
Qed.

Lemma seq_increasing k n : strictly_increasing (seq k n).
Proof.
  intros a b x y Hab Ha Hb.
  apply lookup_seq in Ha as [-> _]. apply lookup_seq in Hb as [-> _]. lia.
Qed.

(** The final comprehension never indexes out of range: there are at least
    [M] chunks per worker. *)
Lemma groups_ok (chunked : list (list (list nat))) (ps : list (list nat))
    step n M :
  M ≤ n →
  chunked = (λ p, (λ k, slice p (k * step) step) <$> seq 0 n) <$> ps →
  comprehension (λ i,
    comprehension (λ j, do ids_j <- getitem chunked j; getitem ids_j i)
      (seq 0 (length ps))) (seq 0 M)
  = Ok ((λ i, (λ p, slice p (i * step) step) <$> ps) <$> seq 0 M).
Proof.
  intros HM ->. apply comprehension_ok. intros i Hi.
  apply elem_of_seq in Hi.
  rewrite <-(fmap_default_seq (λ p, slice p (i * step) step) [] ps).
  apply comprehension_ok. intros j Hj. apply elem_of_seq in Hj.
  unfold getitem. rewrite list_lookup_fmap.
  destruct (lookup_lt_is_Some_2 ps j) as [p ->]; [lia|]. cbn.
  rewrite list_lookup_fmap, lookup_seq_lt by lia. done.
Qed.

(** What the call returns whenever the two divisions and the assertion
    pass: group [i] holds, for every worker, the [i]-th slice of length
    [step] of that worker's (shuffled) index list. *)
Lemma compute_minibatch_ids_ok self M use_rnn g :
  M ≠ 0 → horizon self / M ≠ 0 →
  driver_num_steps self mod (horizon self / M) = 0 →
  ∃ ps, length ps = num_workers self ∧
    Forall (λ p, shuffled use_rnn p (seq 0 (horizon self))) ps ∧
    compute_minibatch_ids self M use_rnn g =
      Ok ((λ i, (λ p, slice p (i * (horizon self / M)) (horizon self / M)) <$> ps)
            <$> seq 0 M).
Proof.
  intros HM Hstep Hmod.
  unfold compute_minibatch_ids, compute_minibatch_ids_rng, floordiv, pymod.
  destruct (decide (M = 0)) as [|_]; [done|]. cbn [bind].
  destruct (decide (horizon self / M = 0)) as [|_]; [done|]. cbn [bind].
  rewrite Hmod. cbn [Nat.eqb negb].
  set (step := horizon self / M) in *.
  destruct (chunk_workers_ok use_rnn (horizon self) step g
              ((λ _, seq 0 (horizon self)) <$> seq 0 (num_workers self)) Hstep)
    as (ps & g' & Hps & ->).
  assert (Hlen : length ps = num_workers self).
  { apply Forall2_length in Hps. by rewrite length_fmap, length_seq in Hps. }
  exists ps. split; [done|]. split.
  - apply Forall_forall. intros p Hp.
    apply list_elem_of_lookup in Hp as [i Hi].
    destruct (Forall2_lookup_l _ _ _ _ _ Hps Hi) as (ids & Hids & Hsh).
    rewrite list_lookup_fmap in Hids.
    destruct (seq 0 (num_workers self) !! i); by simplify_eq/=.
  - cbn [bind fst snd]. rewrite <-Hlen.
    rewrite (groups_ok _ ps step ((horizon self + step - 1) / step) M); [done| |done].
    apply Nat.div_le_lower_bound; [done|].
    pose proof (Nat.div_mod_eq (horizon self) M) as Hdm. fold step in Hdm.
    nia.
Qed.

Lemma divide_step (hor M : nat) :
  0 < hor → Nat.divide M hor →
  M ≠ 0 ∧ hor / M ≠ 0 ∧ M * (hor / M) = hor ∧ hor mod (hor / M) = 0.
Proof.
  intros Hpos [z ->].
  assert (M ≠ 0) by (intros ->; lia).
  rewrite Nat.div_mul by done.
  assert (z ≠ 0) by (intros ->; lia).
  repeat split; [done|done|lia|].
  rewrite Nat.mul_comm. apply Nat.Div0.mod_mul.
Qed.

Lemma worker_indices_groups (ps : list (list nat)) step M w p :
  ps !! w = Some p →
  worker_indices ((λ i, (λ p, slice p (i * step) step) <$> ps) <$> seq 0 M) w
  = take (M * step) p.
Proof.
  intros Hp. unfold worker_indices. rewrite <-list_fmap_compose.
  rewrite <-slices_concat. f_equal. apply list_fmap_ext. intros i k _. cbn.
  by rewrite list_lookup_fmap, Hp.
Qed.

Lemma slice_shuffled_facts use_rnn hor step M gi p :
  step ≠ 0 → M * step = hor → gi < M →
  shuffled use_rnn p (seq 0 hor) →
  let chunk := slice p (gi * step) step in
  length chunk = step ∧ NoDup chunk ∧ (∀ x, x ∈ chunk → x < hor) ∧
  (use_rnn = true → chunk = seq (gi * step) step).
Proof.
  intros Hstep Hmul Hgi [Hperm Heq] chunk.
  assert (Hlen : length p = hor).
  { apply Permutation_length in Hperm. by rewrite length_seq in Hperm. }
  assert (Hin : gi * step + step ≤ hor).
  { assert (S gi * step ≤ M * step) by (apply Nat.mul_le_mono_r; lia). lia. }
  assert (Hsub : sublist chunk p).
  { unfold chunk, slice. etrans; [apply sublist_take|apply sublist_drop]. }
  repeat split.
  - unfold chunk, slice. rewrite length_take, length_drop. lia.
  - eapply sublist_NoDup; [|done]. rewrite Hperm. apply NoDup_seq.
  - intros x Hx. eapply elem_of_sublist in Hx; [|done].
    rewrite Hperm in Hx. apply elem_of_seq in Hx. lia.
  - intros Hrnn. unfold chunk. rewrite (Heq Hrnn). by apply slice_seq.
Qed.

(** C3, as the code has it. The call fails with an assertion error exactly
    when [num_minibatch] is not zero, [step = horizon // num_minibatch] is
    not zero, and [driver._num_steps % step] is not zero. When
    [num_minibatch] evenly divides [horizon] and the driver is configured
    for [horizon] steps, no assertion error is raised. *)
Theorem assertion_error_iff self M use_rnn g :
  (compute_minibatch_ids self M use_rnn g = Raise AssertionError ↔
     M ≠ 0 ∧ horizon self / M ≠ 0 ∧
     driver_num_steps self mod (horizon self / M) ≠ 0)
  ∧ (Nat.divide M (horizon self) → driver_num_steps self = horizon self →
     compute_minibatch_ids self M use_rnn g ≠ Raise AssertionError).
Proof.
  assert (Hiff : compute_minibatch_ids self M use_rnn g = Raise AssertionError ↔
     M ≠ 0 ∧ horizon self / M ≠ 0 ∧
     driver_num_steps self mod (horizon self / M) ≠ 0).
  { split.
    - intros Hr.
      destruct (decide (M = 0)) as [HM|HM].
      { revert Hr.
        unfold compute_minibatch_ids, compute_minibatch_ids_rng, floordiv.
        by rewrite decide_True. }
      destruct (decide (horizon self / M = 0)) as [Hs|Hs].
      { revert Hr.
        unfold compute_minibatch_ids, compute_minibatch_ids_rng, floordiv, pymod.
        rewrite decide_False by done. cbn [bind]. by rewrite decide_True. }
      destruct (decide (driver_num_steps self mod (horizon self / M) = 0))
        as [Hm|Hm]; [|done].
      destruct (compute_minibatch_ids_ok self M use_rnn g HM Hs Hm)
        as (ps & _ & _ & Heq).
      congruence.
    - intros (HM & Hs & Hm).
      unfold compute_minibatch_ids, compute_minibatch_ids_rng, floordiv, pymod.
      rewrite decide_False by done. cbn [bind].
      rewrite decide_False by done. cbn [bind].
      apply Nat.eqb_neq in Hm. by rewrite Hm. }
  split; [done|].
  intros Hdiv Hsteps. rewrite Hiff. intros (HM & Hs & Hm). apply Hm.
  rewrite Hsteps.
  destruct (decide (horizon self = 0)) as [H0|H0].
  { rewrite H0 in Hs. by rewrite Nat.Div0.div_0_l in Hs. }
  apply divide_step; [lia|done].
Qed.

(** C3 as stated fails: 4 does not divide 10, and the call with
    [horizon = 10], [num_minibatch = 4] returns groups instead of failing
    its assertion. *)
Lemma nondivisor_not_rejected :
  ¬ Nat.divide 4 10 ∧
  compute_minibatch_ids
    {| num_workers := 1; horizon := 10; driver_num_steps := 10 |}
    4 true (λ _, 0)
  = Ok [[[0; 1]]; [[2; 3]]; [[4; 5]]; [[6; 7]]].
Proof. split; [intros [z Hz]; lia|done]. Qed.

(** C4, as the code has it. For a positive horizon [H] and [M] dividing
    [H], the call returns [M] groups and group [g] holds for every worker a
    list of [H/M] distinct indices of [[0,H)]; with [use_rnn] that list is
    the contiguous chunk [g*(H/M), ..., (g+1)*(H/M) - 1], in this order. *)
Theorem minibatch_chunks self M use_rnn g :
  0 < horizon self → Nat.divide M (horizon self) →
  driver_num_steps self = horizon self →
  ∃ groups, compute_minibatch_ids self M use_rnn g = Ok groups ∧
    length groups = M ∧
    ∀ gi w, gi < M → w < num_workers self →
      ∃ chunk, groups !! gi ≫= (.!! w) = Some chunk ∧
        length chunk = horizon self / M ∧
        NoDup chunk ∧
        (∀ x, x ∈ chunk → x < horizon self) ∧
        (use_rnn = true →
           chunk = seq (gi * (horizon self / M)) (horizon self / M)).
Proof.
  intros Hpos Hdiv Hsteps.
  destruct (divide_step _ _ Hpos Hdiv) as (HM & Hs & Hmul & Hmod).
  rewrite <-Hsteps in Hmod at 1.
  destruct (compute_minibatch_ids_ok self M use_rnn g HM Hs Hmod)
    as (ps & Hlen & Hps & ->).
  eexists. split; [done|]. split; [by rewrite length_fmap, length_seq|].
  intros gi w Hgi Hw.
  destruct (lookup_lt_is_Some_2 ps w) as [p Hp]; [lia|].
  exists (slice p (gi * (horizon self / M)) (horizon self / M)). split.
  - rewrite list_lookup_fmap, lookup_seq_lt by done. cbn.
    by rewrite list_lookup_fmap, Hp.
  - apply (slice_shuffled_facts use_rnn (horizon self) _ M); [done|done|done|].
    rewrite Forall_forall in Hps. apply Hps. by eapply list_elem_of_lookup_2.
Qed.

Lemma minibatch_chunks_witness :
  ∃ groups,
    compute_minibatch_ids
      {| num_workers := 2; horizon := 6; driver_num_steps := 6 |}
      3 false (λ k, k) = Ok groups ∧
    length groups = 3.
Proof.
  destruct (minibatch_chunks
              {| num_workers := 2; horizon := 6; driver_num_steps := 6 |}
              3 false (λ k, k))
    as (groups & Hg & Hl & _); [cbn; lia|by exists 2|reflexivity|].
  exists groups. by split.
Defined.

(** C4 as stated fails without [use_rnn]: the shuffle precedes the
    chunking, so with [horizon = 4], [num_minibatch = 2] and a random
    source that always draws 0, group 0 holds the indices 1 and 2, which
    are not the chunk [{0, 1}]. *)
Lemma shuffled_chunk_not_contiguous :
  compute_minibatch_ids
    {| num_workers := 1; horizon := 4; driver_num_steps := 4 |}
    2 false (λ _, 0)
  = Ok [[[1; 2]]; [[3; 0]]]
  ∧ Nat.divide 2 4
  ∧ ¬ ([1; 2] ≡ₚ seq (0 * (4 / 2)) (4 / 2)).
Proof.
  split; [done|]. split; [by exists 2|].
  intros Hp. assert (H0 : 0 ∈ [1; 2]) by (rewrite Hp; cbn; left).
  apply elem_of_cons in H0 as [H0|H0]; [done|].
  apply elem_of_cons in H0 as [H0|H0]; [done|].
  by apply elem_of_nil in H0.
Qed.

(** C5. For a positive horizon [H] and [M] dividing [H], the index lists
    that the [M] returned groups hold for one worker, taken together, are a
    rearrangement of [0, ..., H-1]: every index once, none missing, with
    and without [use_rnn]. *)
Theorem minibatch_coverage self M use_rnn g :
  0 < horizon self → Nat.divide M (horizon self) →
  driver_num_steps self = horizon self →
  ∃ groups, compute_minibatch_ids self M use_rnn g = Ok groups ∧
    length groups = M ∧
    ∀ w, w < num_workers self →
      worker_indices groups w ≡ₚ seq 0 (horizon self).
Proof.
  intros Hpos Hdiv Hsteps.
  destruct (divide_step _ _ Hpos Hdiv) as (HM & Hs & Hmul & Hmod).
  rewrite <-Hsteps in Hmod at 1.
  destruct (compute_minibatch_ids_ok self M use_rnn g HM Hs Hmod)
    as (ps & Hlen & Hps & ->).
  eexists. split; [done|]. split; [by rewrite length_fmap, length_seq|].
  intros w Hw.
  destruct (lookup_lt_is_Some_2 ps w) as [p Hp]; [lia|].
  rewrite (worker_indices_groups _ _ _ _ _ Hp), Hmul.
  rewrite Forall_forall in Hps.
  destruct (Hps p) as [Hperm _]; [by eapply list_elem_of_lookup_2|].
  rewrite firstn_all2; [done|].
  apply Permutation_length in Hperm. rewrite length_seq in Hperm. lia.
Qed.

Lemma minibatch_coverage_witness :
  ∃ groups,
    compute_minibatch_ids
      {| num_workers := 2; horizon := 6; driver_num_steps := 6 |}
      3 false (λ k, 5 * k + 1) = Ok groups ∧
    worker_indices groups 1 ≡ₚ seq 0 6.
Proof.
  destruct (minibatch_coverage
              {| num_workers := 2; horizon := 6; driver_num_steps := 6 |}
              3 false (λ k, 5 * k + 1))
    as (groups & Hg & _ & Hw); [cbn; lia|by exists 2|reflexivity|].
  exists groups. split; [done|]. apply Hw. cbn. lia.
Defined.

(** C6. For a positive horizon [H] and [M] dividing [H], with
    [use_rnn = true] every index list of every returned group is strictly
    increasing, for every worker. *)
Theorem minibatch_order_preserved self M g :
  0 < horizon self → Nat.divide M (horizon self) →
  driver_num_steps self = horizon self →
  ∃ groups, compute_minibatch_ids self M true g = Ok groups ∧
    length groups = M ∧
    Forall (λ grp, length grp = num_workers self ∧
                   Forall strictly_increasing grp) groups.
Proof.
  intros Hpos Hdiv Hsteps.
  destruct (divide_step _ _ Hpos Hdiv) as (HM & Hs & Hmul & Hmod).
  rewrite <-Hsteps in Hmod at 1.
  destruct (compute_minibatch_ids_ok self M true g HM Hs Hmod)
    as (ps & Hlen & Hps & ->).
  eexists. split; [done|]. split; [by rewrite length_fmap, length_seq|].
  apply Forall_fmap, Forall_forall. intros gi Hgi. apply elem_of_seq in Hgi. cbn.
  split; [by rewrite length_fmap|].
  apply Forall_fmap. eapply Forall_impl; [exact Hps|]. intros p Hp. cbn.
  destruct (slice_shuffled_facts true (horizon self) (horizon self / M) M gi p)
    as (_ & _ & _ & Hseq); [done|done|lia|done|].
  rewrite Hseq by done. apply seq_increasing.
Qed.

Lemma minibatch_order_preserved_witness :
  ∃ groups,
    compute_minibatch_ids
      {| num_workers := 2; horizon := 6; driver_num_steps := 6 |}
      2 true (λ k, k) = Ok groups ∧
    Forall (λ grp, length grp = 2 ∧ Forall strictly_increasing grp) groups.
Proof.
  destruct (minibatch_order_preserved
              {| num_workers := 2; horizon := 6; driver_num_steps := 6 |}
              2 (λ k, k))
    as (groups & Hg & _ & Hall); [cbn; lia|by exists 3|reflexivity|].
  exists groups. by split.
Defined.

(** C10. [num_minibatch = 4] does not divide [horizon = 10], yet
    [10 % (10 // 4) = 0]: with the driver configured for 10 steps the call
    raises nothing and returns 4 groups which hold, for each worker, only
    [4 * 2 = 8] of the 10 indices; the 2 others are in no group. *)
Theorem nondivisor_drops_indices (W : nat) use_rnn g :
  ¬ Nat.divide 4 10 ∧ 10 mod (10 / 4) = 0 ∧
  ∃ groups,
    compute_minibatch_ids
      {| num_workers := W; horizon := 10; driver_num_steps := 10 |}
      4 use_rnn g
    = Ok groups ∧
    length groups = 4 ∧
    ∀ w, w < W →
      length (worker_indices groups w) = 4 * (10 / 4) ∧
      ∃ omitted, length omitted = 10 - 4 * (10 / 4) ∧
        worker_indices groups w ++ omitted ≡ₚ seq 0 10.
Proof.
  split. { intros [z Hz]. lia. }
  split; [done|].
  set (self := {| num_workers := W; horizon := 10; driver_num_steps := 10 |}).
  destruct (compute_minibatch_ids_ok self 4 use_rnn g)
    as (ps & Hlen & Hps & ->); [done|done|done|].
  eexists. split; [done|]. split; [done|].
  intros w Hw. cbn in Hlen.
  destruct (lookup_lt_is_Some_2 ps w) as [p Hp]; [lia|].
  rewrite (worker_indices_groups _ _ _ _ _ Hp).
  rewrite Forall_forall in Hps.
  destruct (Hps p) as [Hperm _]; [by eapply list_elem_of_lookup_2|].
  pose proof (Permutation_length Hperm) as Hl. cbn in Hl.
  change (horizon self) with 10 in *. change (10 / 4) with 2.
  cbn [Nat.mul Nat.add Nat.sub].
  split; [rewrite length_take; lia|].
  exists (drop 8 p). split; [rewrite length_drop; lia|].
  by rewrite take_drop.
Qed.

End Partitioner.

(** ** Dense tensors *)

Section TensorFacts.
Import Tensor.
Context {A B C : Type}.

Lemma broadcast_dim_same n : broadcast_dim n n = Ok n.
Proof. unfold broadcast_dim. by rewrite decide_True. Qed.

Lemma bix_lt d i : i < d → bix d i = i.
Proof. unfold bix. case_decide; lia. Qed.

Lemma zip1_same (f : A → B → C) (a : t1 A) (b : t1 B) :
  len a = len b →
  ∃ c, zip1 f a b = Ok c ∧ len c = len a ∧
       ∀ i, i < len a → at1 c i = f (at1 a i) (at1 b i).
Proof.
  intros Hl. unfold zip1. rewrite <-Hl, broadcast_dim_same. cbn.
  eexists. split; [done|]. split; [done|]. intros i Hi. cbn. by rewrite bix_lt.
Qed.

Lemma zip2_same (f : A → B → C) (a : t2 A) (b : t2 B) :
  dim0 a = dim0 b → dim1 a = dim1 b →
  ∃ c, zip2 f a b = Ok c ∧ dim0 c = dim0 a ∧ dim1 c = dim1 a ∧
       ∀ i j, i < dim0 a → j < dim1 a → at2 c i j = f (at2 a i j) (at2 b i j).
Proof.
  intros H0 H1. unfold zip2. rewrite <-H0, <-H1, !broadcast_dim_same. cbn.
  eexists. split; [done|]. split; [done|]. split; [done|].
  intros i j Hi Hj. cbn. by rewrite !bix_lt.
Qed.

Lemma stack1_ok (vs : list (t1 A)) (n : nat) :
  vs ≠ [] → Forall (λ u, len u = n) vs →
  ∃ t, stack1 vs = Ok t ∧ dim0 t = n ∧ dim1 t = length vs ∧
       ∀ i j v, vs !! j = Some v → at2 t i j = at1 v i.
Proof.
  intros Hne Hall. destruct vs as [|v vs]; [done|]. unfold stack1.
  assert (Hv : len v = n) by by inversion Hall.
  rewrite decide_True.
  - eexists. split; [done|]. split; [done|]. split; [done|].
    intros i j u Hu. cbn [at2]. by rewrite Hu.
  - eapply Forall_impl; [exact Hall|]. cbn. intros u Hu. congruence.
Qed.

Lemma stack1_fmap_ok (f : B → t1 A) (l : list B) (extra : list (t1 A))
    (n : nat) :
  (f <$> l) ++ extra ≠ [] →
  Forall (λ b, len (f b) = n) l → Forall (λ u, len u = n) extra →
  ∃ t, stack1 ((f <$> l) ++ extra) = Ok t ∧ dim0 t = n ∧
       dim1 t = length l + length extra ∧
       ∀ i j v, ((f <$> l) ++ extra) !! j = Some v → at2 t i j = at1 v i.
Proof.
  intros Hne Hl He.
  destruct (stack1_ok ((f <$> l) ++ extra) n) as (t & Ht & H0 & H1 & Hat).
  - done.
  - apply Forall_app. split; [by apply Forall_fmap|done].
  - exists t. rewrite length_app, length_fmap in H1. done.
Qed.

End TensorFacts.

(** ** The advantage estimator *)

Section Estimator.
Import Tensor Advantage.
Context {Sc F : Type} `{!Arith Sc F}.
Implicit Types (discount gae_parameter : Sc) (rewards values dones : t2 F).

Lemma td_residuals_ok discount rewards values dones W H :
  dim0 rewards = W ∧ dim1 rewards = H →
  dim0 values = W ∧ dim1 values = S H →
  dim0 dones = W ∧ dim1 dones = H →
  ∃ deltas,
    td_residuals discount rewards values (map2d (sub (const one)) dones)
      = Ok deltas ∧
    dim0 deltas = W ∧ dim1 deltas = H ∧
    ∀ w t, w < W → t < H →
      at2 deltas w t = delta discount rewards values dones w t.
Proof.
  intros [Hr0 Hr1] [Hv0 Hv1] [Hd0 Hd1].
  unfold td_residuals.
  destruct (zip2_same mul (map2d (scale discount) (map2d (sub (const one)) dones))
              (tail_cols values)) as (b & -> & Hb0 & Hb1 & Hb); cbn; [lia|lia|].
  cbn in Hb0, Hb1, Hb.
  destruct (zip2_same add rewards b) as (tg & -> & Ht0 & Ht1 & Ht);
    cbn; [lia|lia|].
  destruct (zip2_same sub tg (init_cols values)) as (d & -> & Hx0 & Hx1 & Hx);
    cbn; [lia|lia|].
  exists d. split; [done|]. split; [lia|]. split; [lia|].
  intros w t Hw Ht'. rewrite Hx, Ht, Hb by lia. done.
Qed.

(** The backward loop keeps [gae_inv]: each pass appends the advantage
    column of the next earlier time. *)
Lemma gae_loop_ok discount gae_parameter rewards values dones W H deltas n acc :
  dim0 dones = W ∧ dim1 dones = H →
  dim0 deltas = W → dim1 deltas = H →
  (∀ w t, w < W → t < H →
     at2 deltas w t = delta discount rewards values dones w t) →
  n < H → gae_inv discount gae_parameter rewards values dones W H n acc →
  ∃ acc',
    foldM (gae_step discount gae_parameter deltas (map2d (sub (const one)) dones))
          acc (reverse (seq 0 n)) = Ok acc' ∧
    gae_inv discount gae_parameter rewards values dones W H 0 acc'.
Proof.
  intros [Hdn0 Hdn1] Hd0 Hd1 Hd. revert acc.
  induction n as [|n IH]; intros acc Hn Hinv.
  { exists acc. by split. }
  rewrite seq_S, reverse_snoc. cbn [foldM Nat.add].
  destruct Hinv as [Hlen Hacc].
  destruct (Hacc (H - S (S n))) as (prev & Hprev & Hplen & Hpv); [lia|].
  unfold gae_step at 1. unfold col.
  rewrite decide_True by lia. cbn [bind].
  rewrite decide_True by (cbn; lia). cbn [bind].
  assert (Hlast : last_item acc = Ok prev).
  { unfold last_item. rewrite last_lookup, Hlen.
    replace (Init.Nat.pred (H - S n)) with (H - S (S n)) by lia.
    by rewrite Hprev. }
  rewrite Hlast. cbn [bind].
  destruct (zip1_same mul
    (map1 (scale (smul discount gae_parameter))
       (mk1 (dim0 (map2d (sub (const one)) dones))
            (λ w, at2 (map2d (sub (const one)) dones) w n))) prev)
    as (c & -> & Hc0 & Hc); [cbn; lia|]. cbn [bind].
  cbn in Hc0, Hc.
  destruct (zip1_same add (mk1 (dim0 deltas) (λ w, at2 deltas w n)) c)
    as (a & -> & Ha0 & Ha); [cbn; lia|]. cbn [bind].
  cbn in Ha0, Ha.
  apply IH; [lia|]. split.
  - rewrite length_app. cbn. lia.
  - intros q Hq. destruct (decide (q < H - S n)) as [Hlt|Hge].
    + destruct (Hacc q Hlt) as (v & Hv & Hvl & Hvv). exists v.
      split; [|done]. by rewrite lookup_app_l by lia.
    + assert (q = H - S n) as -> by lia. exists a. split; [|split; [lia|]].
      * rewrite lookup_app_r by lia. by rewrite Hlen, Nat.sub_diag.
      * intros w Hw. rewrite Ha, Hc, Hd, Hpv by lia.
        replace (H - 1 - (H - S n)) with n by lia.
        replace (H - S n) with (S (H - S (S n))) by lia. cbn [gae_at].
        replace (H - 1 - (H - S (S n))) with (S n) by lia. done.
Qed.

(** C1. For rewards and dones of shape [[W, H]] and values of shape
    [[W, H+1]] with [H >= 1], [compute_advantages] returns a tensor [A] of
    shape [[W, H]] with [A[w,H-1] = delta[w,H-1]] and, for every [t < H-1],
    [A[w,t] = delta[w,t] + discount*gae_parameter*(1-D[w,t])*A[w,t+1]],
    where [delta[w,t] = R[w,t] + discount*(1-D[w,t])*V[w,t+1] - V[w,t]];
    with [H = 1], [A[w,0] = delta[w,0]]. *)
Theorem compute_advantages_gae discount gae_parameter rewards values dones
    (W H : nat) :
  dim0 rewards = W ∧ dim1 rewards = H →
  dim0 values = W ∧ dim1 values = S H →
  dim0 dones = W ∧ dim1 dones = H →
  0 < H →
  ∃ A, compute_advantages discount gae_parameter rewards values dones = Ok A ∧
    dim0 A = W ∧ dim1 A = H ∧
    ∀ w, w < W →
      at2 A w (H - 1) = delta discount rewards values dones w (H - 1) ∧
      (∀ t, t < H - 1 →
         at2 A w t =
           add (delta discount rewards values dones w t)
               (mul (mul (const (smul discount gae_parameter))
                         (nonterminal dones w t))
                    (at2 A w (S t)))) ∧
      (H = 1 → at2 A w 0 = delta discount rewards values dones w 0).
Proof.
  intros Hr Hv Hd Hpos. unfold compute_advantages.
  destruct (td_residuals_ok discount rewards values dones W H Hr Hv Hd)
    as (deltas & -> & Hd0 & Hd1 & Hdv). cbn [bind].
  unfold last_col, col. rewrite Hd1.
  rewrite decide_False by lia. rewrite decide_True by lia.
  cbn [bind].
  destruct (gae_loop_ok discount gae_parameter rewards values dones W H
              deltas (H - 1) [mk1 (dim0 deltas) (λ w, at2 deltas w (H - 1))])
    as (acc & Hfold & Hlen & Hacc); [done|done|done|done|lia| |].
  { split; [cbn; lia|]. intros q Hq. assert (q = 0) as -> by lia.
    eexists. split; [done|]. split; [done|]. intros w Hw. cbn.
    rewrite Hdv by lia. by rewrite Nat.sub_0_r. }
  rewrite Hfold. cbn [bind].
  assert (Hall : Forall (λ u, len u = W) (reverse acc)).
  { apply Forall_forall. intros v Hin. rewrite elem_of_reverse in Hin.
    apply list_elem_of_lookup in Hin as [q Hq].
    destruct (Hacc q) as (v' & Hv' & Hl & _);
      [apply lookup_lt_Some in Hq; lia|].
    congruence. }
  destruct (stack1_ok (reverse acc) W) as (A & -> & HA0 & HA1 & HA); [|done|].
  { intros Hnil. apply (f_equal length) in Hnil.
    rewrite length_reverse in Hnil. cbn in Hnil. lia. }
  rewrite length_reverse, Hlen, Nat.sub_0_r in HA1.
  assert (Hat : ∀ w t, w < W → t < H →
            at2 A w t =
              gae_at discount gae_parameter rewards values dones (H - 1 - t) t w).
  { intros w t Hw Ht.
    destruct (Hacc (H - 1 - t)) as (v & Hv' & Hl & Hvv); [lia|].
    rewrite (HA w t v).
    - rewrite Hvv by done. f_equal. lia.
    - rewrite reverse_lookup by lia. rewrite Hlen, <-Hv'. f_equal. lia. }
  exists A. split; [done|]. split; [done|]. split; [done|].
  intros w Hw. split; [|split].
  - rewrite Hat by lia. by rewrite Nat.sub_diag.
  - intros t Ht. rewrite !Hat by lia.
    replace (H - 1 - t) with (S (H - 1 - S t)) by lia. done.
  - intros ->. rewrite Hat by lia. done.
Qed.

End Estimator.

Section EstimatorRun.
Import Tensor Advantage.

Lemma compute_advantages_gae_witness :
  ∃ A, compute_advantages (F:=Z) 2%Z 3%Z
         (mk2 2 3 (λ w t, Z.of_nat (w + t)))
         (mk2 2 4 (λ w t, Z.of_nat (w * t)))
         (mk2 2 3 (λ w t, if decide (t = 1) then 1%Z else 0%Z)) = Ok A ∧
    at2 A 1 2 =
      delta (F:=Z) 2%Z
         (mk2 2 3 (λ w t, Z.of_nat (w + t)))
         (mk2 2 4 (λ w t, Z.of_nat (w * t)))
         (mk2 2 3 (λ w t, if decide (t = 1) then 1%Z else 0%Z)) 1 2.
Proof.
  destruct (compute_advantages_gae (F:=Z) 2%Z 3%Z
         (mk2 2 3 (λ w t, Z.of_nat (w + t)))
         (mk2 2 4 (λ w t, Z.of_nat (w * t)))
         (mk2 2 3 (λ w t, if decide (t = 1) then 1%Z else 0%Z)) 2 3)
    as (A & HA & _ & _ & Hrec); [by split|by split|by split|lia|].
  exists A. split; [done|]. destruct (Hrec 1) as [Hlast _]; [lia|]. exact Hlast.
Defined.

End EstimatorRun.

(** ** The PPO-clip loss *)

Section ClipLoss.
Import Reals Lra.
Import Tensor Loss.
Local Open Scope R_scope.

Lemma sum_upto_ext n (f h : nat → R) :
  (∀ i, (i < n)%nat → f i = h i) → sum_upto n f = sum_upto n h.
Proof.
  induction n as [|n IH]; intros Hfh; [done|].
  cbn. rewrite IH, Hfh by (intros; try apply Hfh; lia). done.
Qed.

Lemma sum_upto_opp n (f : nat → R) : sum_upto n (λ i, - f i) = - sum_upto n f.
Proof. induction n as [|n IH]; cbn; [lra|rewrite IH; lra]. Qed.

Lemma foldr_Rplus_app (l k : list R) :
  foldr Rplus 0 (l ++ k) = foldr Rplus 0 l + foldr Rplus 0 k.
Proof. induction l as [|x l IH]; cbn; [lra|rewrite IH; lra]. Qed.

Lemma foldr_Rplus_seq n (f : nat → R) :
  foldr Rplus 0 (f <$> seq 0 n) = sum_upto n f.
Proof.
  induction n as [|n IH]; [done|].
  rewrite seq_S, fmap_app, foldr_Rplus_app, IH. cbn. lra.
Qed.

Lemma reduce_sum_nested (t : t2 R) :
  reduce_sum t = sum_upto (dim0 t) (λ w, sum_upto (dim1 t) (λ j, at2 t w j)).
Proof.
  unfold reduce_sum, entries. generalize (dim0 t) as n.
  induction n as [|n IH]; [done|].
  rewrite seq_S, bind_app, foldr_Rplus_app, IH. cbn.
  rewrite app_nil_r, foldr_Rplus_seq. done.
Qed.

Lemma surrogate_at_ratio_one a old eps :
  0 <= eps → surrogate a old old eps = - a.
Proof.
  intros Heps. unfold surrogate, clip_by_value.
  replace (old - old) with 0 by lra. rewrite exp_0.
  rewrite (Rmin_left 1 (1 + eps)) by lra.
  rewrite (Rmax_left 1 (1 - eps)) by lra.
  rewrite Rmax_left by lra. lra.
Qed.

(** C7. For advantages and old and new log-probabilities of one shape
    [[W, T]], [ppo_clip_loss] returns the mean over all elements of
    [max(-A*r, -A*clip(r, 1-eps, 1+eps))] with [r = exp(new - old)]; when
    moreover every advantage is positive, [eps >= 0] and the new
    log-probabilities equal the old ones, it returns [-mean(A)]. *)
Theorem ppo_clip_loss_spec (A old new : t2 R) (eps : R) (W T : nat) :
  dim0 A = W ∧ dim1 A = T →
  dim0 old = W ∧ dim1 old = T →
  dim0 new = W ∧ dim1 new = T →
  ppo_clip_loss A old new eps =
    Ok (mean_over W T
          (λ w t, surrogate (at2 A w t) (at2 old w t) (at2 new w t) eps))
  ∧ ((∀ w t, (w < W)%nat → (t < T)%nat → 0 < at2 A w t) →
     0 <= eps →
     (∀ w t, (w < W)%nat → (t < T)%nat → at2 new w t = at2 old w t) →
     ppo_clip_loss A old new eps = Ok (- reduce_mean A)).
Proof.
  intros [HA0 HA1] [Ho0 Ho1] [Hn0 Hn1].
  assert (Hgen : ppo_clip_loss A old new eps =
    Ok (mean_over W T
          (λ w t, surrogate (at2 A w t) (at2 old w t) (at2 new w t) eps))).
  { unfold ppo_clip_loss.
    destruct (zip2_same Rminus new old) as (d & -> & Hd0 & Hd1 & Hd); [lia|lia|].
    cbn [bind].
    destruct (zip2_same Rmult (map2d Ropp A) (map2d exp d))
      as (u & -> & Hu0 & Hu1 & Hu); [cbn; lia|cbn; lia|]. cbn [bind].
    destruct (zip2_same Rmult (map2d Ropp A)
                (map2d (λ r, clip_by_value r (1 - eps) (1 + eps)) (map2d exp d)))
      as (c & -> & Hc0 & Hc1 & Hc); [cbn; lia|cbn; lia|]. cbn [bind].
    destruct (zip2_same Rmax u c) as (l & -> & Hl0 & Hl1 & Hl); [lia|lia|].
    cbn [bind]. cbn in *. f_equal.
    unfold reduce_mean, mean_over. rewrite reduce_sum_nested.
    replace (dim0 l) with W by lia. replace (dim1 l) with T by lia.
    f_equal. apply sum_upto_ext. intros w Hw. apply sum_upto_ext. intros t Ht.
    rewrite Hl, Hu, Hc, Hd by lia. done. }
  split; [done|].
  intros Hpos Heps Hsame. rewrite Hgen. f_equal.
  unfold mean_over, reduce_mean. rewrite reduce_sum_nested, HA0, HA1.
  rewrite <-Rdiv_opp_l, <-sum_upto_opp. f_equal.
  apply sum_upto_ext. intros w Hw. rewrite <-sum_upto_opp.
  apply sum_upto_ext. intros t Ht.
  rewrite Hsame by done. by apply surrogate_at_ratio_one.
Qed.

Lemma ppo_clip_loss_spec_witness :
  ppo_clip_loss (mk2 1 2 (λ _ _, 2)) (mk2 1 2 (λ _ _, -1))
                (mk2 1 2 (λ _ _, -1)) (1/5)
  = Ok (- reduce_mean (mk2 1 2 (λ _ _, 2))).
Proof.
  apply (ppo_clip_loss_spec (mk2 1 2 (λ _ _, 2)) (mk2 1 2 (λ _ _, -1))
           (mk2 1 2 (λ _ _, -1)) (1/5) 1 2); cbn; try done; intros; lra.
Defined.

End ClipLoss.

(** ** The experience collector *)

Section CollectorFacts.
Import Tensor Policy Collector.
Context {Obs Act Rew F Hid : Type}.
Variables (cast_bool : bool → F) (cast_reward : Rew → F).

(** Every field of a batched step has [W] entries. *)
Ltac batched_field :=
  eapply Forall_impl; [eassumption|]; by intros ? (?&?&?&?&?&?).

(** C2. When the rollout buffer is empty on entry and the driver hands over
    exactly [horizon >= 1] batched steps of [W] workers, the extracted
    batch has a dones tensor of shape [[W, horizon]] whose entry [t], for
    [t < horizon - 1], is the cast of the done flag ([step_type == LAST])
    of buffer entry [t + 1], and whose entry [horizon - 1] is the cast of
    the done flag of the final time step, the one the bootstrap value is
    computed from; the done flag of the first buffer entry does not enter
    the tensor. *)
Theorem collected_dones_shifted (self : PPOAgent)
    (driver : Driver Obs Act Rew F Hid) (pol : policy Obs Act F Hid)
    (state : policy_state Hid) (W : nat)
    (steps : list (Trajectory Obs Act Rew F))
    (last_time_step : TimeStep Obs) (last_state : policy_state Hid) :
  run driver state (horizon self) = (steps, (last_time_step, last_state)) →
  length steps = horizon self →
  0 < horizon self →
  Forall (batched W) steps →
  len (ts_step_type last_time_step) = W →
  (∃ out, actor_critic_network pol
            (expand_dims1 (ts_observation last_time_step))
            (map2d cast_bool
               (expand_dims1 (is_last (ts_step_type last_time_step))))
            last_state None false = Ok out ∧
          dim0 (out_value out) = W ∧ dim1 (out_value out) = 1) →
  ∃ exp, collect_experiences cast_bool cast_reward self driver pol [] state
           = Ok (exp, []) ∧
    dim0 (dones exp) = W ∧ dim1 (dones exp) = horizon self ∧
    (∀ w t s, w < W → t < horizon self - 1 → steps !! S t = Some s →
       at2 (dones exp) w t =
         cast_bool (bool_decide (at1 (step_type s) w = LAST))) ∧
    (∀ w, w < W →
       at2 (dones exp) w (horizon self - 1) =
         cast_bool (bool_decide (at1 (ts_step_type last_time_step) w = LAST))) ∧
    (∀ first first',
       stack_dones (first' :: drop 1 steps)
                   (expand_dims1 (is_last (ts_step_type last_time_step)))
       = stack_dones (first :: drop 1 steps)
                     (expand_dims1 (is_last (ts_step_type last_time_step)))).
Proof.
  intros Hrun Hlen Hpos Hsteps Hlast (out & Hnet & Hv0 & Hv1).
  unfold collect_experiences. rewrite Hrun. rewrite app_nil_l.
  rewrite Hnet. cbn [bind].
  unfold squeeze1 at 1. rewrite decide_True by done. cbn [bind].
  assert (Hne : steps ≠ []) by (intros ->; cbn in Hlen; lia).
  destruct (stack1_fmap_ok observation steps [] W) as (tobs & Hobs & _);
    [by destruct steps| |done|].
  { batched_field. }
  rewrite app_nil_r in Hobs. rewrite Hobs. cbn [bind].
  destruct (stack1_fmap_ok reward steps [] W) as (trew & Hrew & _);
    [by destruct steps| |done|].
  { batched_field. }
  rewrite app_nil_r in Hrew. rewrite Hrew. cbn [bind].
  unfold stack_dones, squeeze1. cbn [expand_dims1 dim1].
  rewrite decide_True by done. cbn [bind].
  set (final := mk1 _ _).
  destruct (stack1_fmap_ok (λ s, is_last (step_type s)) (drop 1 steps) [final] W)
    as (tdn & Hdn & Hdn0 & Hdn1 & Hdnat).
  { by destruct (drop 1 steps). }
  { apply Forall_drop. batched_field. }
  { by repeat constructor. }
  rewrite Hdn. cbn [bind].
  destruct (stack1_fmap_ok action steps [] W) as (tact & Hact & _);
    [by destruct steps| |done|].
  { batched_field. }
  rewrite app_nil_r in Hact. rewrite Hact. cbn [bind].
  destruct (stack1_fmap_ok (λ s, (policy_info s).1) steps [] W)
    as (tpr & Hpr & _); [by destruct steps| |done|].
  { batched_field. }
  rewrite app_nil_r in Hpr. rewrite Hpr. cbn [bind].
  destruct (stack1_fmap_ok (λ s, (policy_info s).2) steps
              [mk1 (dim0 (out_value out)) (λ i, at2 (out_value out) i 0)] W)
    as (tval & Hval & _).
  { by destruct steps. }
  { batched_field. }
  { by repeat constructor. }
  rewrite Hval. cbn [bind].
  eexists. split; [done|]. cbn [dones map2d dim0 dim1 at2].
  rewrite length_drop in Hdn1. cbn in Hdn1.
  split; [done|]. split; [lia|]. split; [|split].
  - intros w t s Hw Ht Hs.
    rewrite (Hdnat w t (is_last (step_type s))); [done|].
    rewrite lookup_app_l by (rewrite length_fmap, length_drop; lia).
    rewrite list_lookup_fmap, lookup_drop. cbn. by rewrite Hs.
  - intros w Hw. rewrite (Hdnat w (horizon self - 1) final); [done|].
    rewrite lookup_app_r by (rewrite length_fmap, length_drop; lia).
    rewrite length_fmap, length_drop.
    by replace (horizon self - 1 - (length steps - 1)) with 0 by lia.
  - done.
Qed.

End CollectorFacts.

Section CollectorRun.
Import Tensor Policy Collector Doubles.

Lemma collected_dones_shifted_witness :
  ∃ exp,
    collect_experiences (λ b : bool, if b then 1%Z else 0%Z) (λ r : Z, r)
      {| num_workers := 1; horizon := 2; driver_num_steps := 2 |}
      two_step_driver recording_policy [] (Shared (blank 1)) = Ok (exp, []) ∧
    at2 (dones exp) 0 0 = 1%Z ∧ at2 (dones exp) 0 1 = 0%Z.
Proof.
  destruct (collected_dones_shifted (λ b : bool, if b then 1%Z else 0%Z)
              (λ r : Z, r)
              {| num_workers := 1; horizon := 2; driver_num_steps := 2 |}
              two_step_driver recording_policy (Shared (blank 1)) 1
              two_steps
              {| ts_step_type := mk1 1 (λ _, MID);
                 ts_observation := mk1 1 (λ _, 12) |}
              (Shared (blank 1)))
    as (exp & Hexp & _ & _ & Hshift & Hfinal & _).
  - reflexivity.
  - reflexivity.
  - cbn. lia.
  - repeat constructor.
  - reflexivity.
  - eexists. split; [reflexivity|]. by split.
  - exists exp. split; [exact Hexp|]. split.
    + exact (Hshift 0 0 _ ltac:(lia) ltac:(cbn; lia) eq_refl).
    + exact (Hfinal 0 ltac:(lia)).
Defined.

End CollectorRun.

(** ** Recomputing the recurrent state *)

Section RecurrentFacts.
Import Tensor Policy Recurrent.
Context {Obs Act F Hid : Type}.

Lemma concat0_units {A B : Type} (f : B → t1 A) (l : list B) :
  l ≠ [] → Forall (λ b, len (f b) = 1) l →
  ∃ r, concat0 (f <$> l) = Ok r ∧ len r = length l ∧
       ∀ k b, l !! k = Some b → at1 r k = at1 (f b) 0.
Proof.
  induction l as [|b l IH]; [done|]. intros _ Hall.
  apply Forall_cons in Hall as [Hb Hall].
  destruct l as [|b' l].
  - exists (f b). split; [done|]. split; [done|].
    intros [|k] c Hk; by simplify_eq/=.
  - destruct IH as (r & Hr & Hlen & Hat); [done|done|].
    exists (append1 (f b) r). split.
    + change (f <$> b :: b' :: l) with (f b :: (f <$> b' :: l)).
      cbn [concat0]. cbn [fmap list_fmap] in Hr |- *. by rewrite Hr.
    + split; [cbn; rewrite Hb, Hlen; done|].
      intros [|k] c Hk; cbn [append1 at1].
      * rewrite decide_True by lia. by simplify_eq/=.
      * rewrite decide_False by lia. rewrite Hb. cbn in Hk.
        replace (S k - 1) with k by lia. by apply Hat.
Qed.

(** Batching per-worker states of one row each puts the state of worker
    [k] in row [k]. *)
Lemma batch_states_row (pol : policy Obs Act F Hid)
    (cell_states : list (policy_state Hid)) :
  cell_states ≠ [] → Forall (worker_batch pol) cell_states →
  ∃ new_state, batch_states pol cell_states = Ok new_state ∧
    ∀ k s, cell_states !! k = Some s →
      worker_state new_state k = worker_state s 0.
Proof.
  intros Hne Hall. unfold batch_states.
  destruct (shared_params pol) eqn:Hsh.
  - assert (Hcs : ∃ cs, cell_states = Shared <$> cs ∧ Forall unit_cell cs).
    { clear Hne. induction Hall as [|s l Hs _ (cs & -> & Hcs)]; [by exists []|].
      destruct s as [c|p v]; cbn in Hs; [|destruct Hs; congruence].
      exists (c :: cs). split; [done|]. constructor; [apply Hs|done]. }
    destruct Hcs as (cs & -> & Hcs).
    rewrite (comprehension_ok as_shared
               (λ s, match s with Shared c => c | Split p _ => p end));
      [|by intros s [c [-> _]]%list_elem_of_fmap].
    rewrite <-list_fmap_compose. cbn [bind].
    assert (Hcne : cs ≠ []) by (by intros ->).
    destruct (concat0_units hidden cs) as (h & Hh & _ & Hhat);
      [done|by eapply Forall_impl; [done|intros ? []]|].
    destruct (concat0_units steps cs) as (st & Hst & _ & Hsat);
      [done|by eapply Forall_impl; [done|intros ? []]|].
    rewrite (fmap_self _ cs) by done.
    rewrite Hh, Hst. cbn [bind]. eexists. split; [done|].
    intros k s Hk. rewrite list_lookup_fmap in Hk.
    destruct (cs !! k) as [c|] eqn:Hc; [|done]. simplify_eq/=.
    unfold cell_row. cbn. by rewrite (Hhat _ _ Hc), (Hsat _ _ Hc).
  - assert (Hcs : ∃ cs, cell_states = (λ c, Split c.1 c.2) <$> cs ∧
                        Forall (λ c, unit_cell c.1 ∧ unit_cell c.2) cs).
    { clear Hne. induction Hall as [|s l Hs _ (cs & -> & Hcs)]; [by exists []|].
      destruct s as [c|p v]; cbn in Hs; [destruct Hs; congruence|].
      exists ((p, v) :: cs). split; [done|]. constructor; [apply Hs|done]. }
    destruct Hcs as (cs & -> & Hcs).
    rewrite (comprehension_ok as_split
               (λ s, match s with Shared c => (c, c) | Split p v => (p, v) end));
      [|by intros s [c [-> _]]%list_elem_of_fmap].
    rewrite <-list_fmap_compose. cbn [bind].
    assert (Hcne : cs ≠ []) by (by intros ->).
    rewrite (fmap_self _ cs) by (by intros []).
    destruct (concat0_units (λ c, hidden c.1) cs) as (ph & Hph & _ & Hphat);
      [done|by eapply Forall_impl; [done|intros ? [[] _]]|].
    destruct (concat0_units (λ c, steps c.1) cs) as (ps & Hps & _ & Hpsat);
      [done|by eapply Forall_impl; [done|intros ? [[] _]]|].
    destruct (concat0_units (λ c, hidden c.2) cs) as (vh & Hvh & _ & Hvhat);
      [done|by eapply Forall_impl; [done|intros ? [_ []]]|].
    destruct (concat0_units (λ c, steps c.2) cs) as (vs & Hvs & _ & Hvsat);
      [done|by eapply Forall_impl; [done|intros ? [_ []]]|].
    rewrite Hph, Hps, Hvh, Hvs. cbn [bind]. eexists. split; [done|].
    intros k s Hk. rewrite list_lookup_fmap in Hk.
    destruct (cs !! k) as [c|] eqn:Hc; [|done]. simplify_eq/=.
    unfold cell_row. cbn.
    by rewrite (Hphat _ _ Hc), (Hpsat _ _ Hc), (Hvhat _ _ Hc), (Hvsat _ _ Hc).
Qed.

(** C8. Let [rollout] be the steps-since-reset counters that
    [recompute_cell_states] reads from its [last_policy_state] argument. For
    every worker [i] whose counter is zero, the state computed for the
    worker is [get_initial_state(1)], with no call of the network; and when
    every worker's recomputation yields a one-row state of the structure
    that [shared_params] announces, the method returns a batched state
    whose row [i] is the row of [get_initial_state(1)]. *)
Theorem fresh_state_when_counter_zero (self : PPOAgent)
    (pol : policy Obs Act F Hid) (observations : t2 Obs) (dones : t2 F)
    (actions : t2 Act) (last_policy_state : policy_state Hid)
    (rollout : t1 Z) (i : nat) :
  rollout_steps pol last_policy_state = Ok rollout →
  i < num_workers self → i < len rollout →
  at1 rollout i = 0%Z →
  (∀ k, k < num_workers self →
     ∃ s, recompute_worker self pol observations dones actions rollout k = Ok s ∧
          worker_batch pol s) →
  recompute_worker self pol observations dones actions rollout i
    = Ok (get_initial_state pol 1) ∧
  ∃ new_state,
    recompute_cell_states self pol observations dones actions last_policy_state
      = Ok new_state ∧
    worker_state new_state i = worker_state (get_initial_state pol 1) 0.
Proof.
  intros Hsteps Hi Hlen Hzero Hall.
  assert (Hworker :
    recompute_worker self pol observations dones actions rollout i
    = Ok (get_initial_state pol 1)).
  { unfold recompute_worker, item. rewrite decide_True by done. cbn [bind].
    by rewrite decide_True. }
  split; [done|].
  unfold recompute_cell_states. rewrite Hsteps. cbn [bind].
  destruct (comprehension_total
              (recompute_worker self pol observations dones actions rollout)
              (seq 0 (num_workers self))) as [cell_states Hcomp].
  { intros k Hk. apply elem_of_seq in Hk.
    destruct (Hall k) as (s & Hs & _); [lia|]. by exists s. }
  rewrite Hcomp. cbn [bind]. apply comprehension_inv in Hcomp.
  assert (Hcell : cell_states !! i = Some (get_initial_state pol 1)).
  { destruct (Forall2_lookup_l _ _ _ i i Hcomp) as (s & Hs & Heq);
      [by apply lookup_seq_lt|]. cbn in Heq. congruence. }
  destruct (batch_states_row pol cell_states) as (new_state & Hnew & Hrow).
  - intros ->. done.
  - apply Forall_forall. intros s Hs.
    apply list_elem_of_lookup in Hs as [k Hk].
    destruct (Forall2_lookup_r _ _ _ _ _ Hcomp Hk) as (k' & Hk' & Heq).
    apply lookup_seq in Hk' as [-> Hlt].
    destruct (Hall k Hlt) as (s' & Hs' & Hb). cbn in Heq. congruence.
  - exists new_state. split; [done|]. by apply Hrow.
Qed.

(** X16. While the counter of worker [i] is between 1 and [horizon], the
    network is called in training mode, from [get_initial_state(1)], on the
    last [steps[i]] timesteps of the worker's observations, dones and
    actions. *)
Lemma replay_suffix_within_horizon (self : PPOAgent)
    (pol : policy Obs Act F Hid) (observations : t2 Obs) (dones : t2 F)
    (actions : t2 Act) (rollout : t1 Z) (i : nat) (n : nat) :
  i < len rollout → at1 rollout i = Z.of_nat n →
  0 < n ≤ horizon self →
  (i < dim0 observations ∧ dim1 observations = horizon self) →
  (i < dim0 dones ∧ dim1 dones = horizon self) →
  (i < dim0 actions ∧ dim1 actions = horizon self) →
  recompute_worker self pol observations dones actions rollout i =
    do out <- actor_critic_network pol
      (mk2 1 n (λ _ k, at2 observations i (horizon self - n + k)))
      (mk2 1 n (λ _ k, at2 dones i (horizon self - n + k)))
      (get_initial_state pol 1)
      (Some (mk2 1 n (λ _ k, at2 actions i (horizon self - n + k))))
      true;
    Ok (out_state out).
Proof.
  intros Hi Hn Hrange [Ho0 Ho1] [Hd0 Hd1] [Ha0 Ha1].
  unfold recompute_worker, item. rewrite decide_True by done. cbn [bind].
  rewrite decide_False by lia.
  unfold row_suffix, row_from. rewrite !decide_True by done. cbn [bind].
  rewrite Ho1, Hd1, Ha1, Hn.
  assert (Hstart :
    slice_start (horizon self) (Z.of_nat (horizon self) - Z.of_nat n)
    = horizon self - n).
  { unfold slice_start.
    destruct (Z.ltb_spec (Z.of_nat (horizon self) - Z.of_nat n) 0); lia. }
  rewrite Hstart. unfold expand_dims0. cbn [len at1].
  replace (horizon self - (horizon self - n)) with n by lia. done.
Qed.

(** Past the horizon the slice bound [horizon - steps[i]] is negative and
    counts from the end of the axis: the replay starts at
    [2*horizon - steps[i]]. *)
Lemma slice_start_wraps (hor n : nat) :
  hor < n ≤ 2 * hor →
  slice_start hor (Z.of_nat hor - Z.of_nat n) = 2 * hor - n.
Proof.
  intros Hn. unfold slice_start.
  destruct (Z.ltb_spec (Z.of_nat hor - Z.of_nat n) 0); lia.
Qed.

End RecurrentFacts.

Section RecurrentRun.
Import Tensor Policy Recurrent Doubles.

Lemma fresh_state_when_counter_zero_witness :
  ∃ new_state,
    recompute_cell_states
      {| num_workers := 2; horizon := 3; driver_num_steps := 3 |}
      recording_policy
      (mk2 2 3 (λ w t, 10 * w + t)) (mk2 2 3 (λ _ _, 0%Z)) (mk2 2 3 (λ _ _, 0))
      (Shared (mk_cell (mk1 2 (λ _, []))
                       (mk1 2 (λ w, if decide (w = 0) then 0%Z else 2%Z))))
    = Ok new_state ∧
    worker_state new_state 0 = inl ([], 0%Z).
Proof.
  destruct (fresh_state_when_counter_zero
      {| num_workers := 2; horizon := 3; driver_num_steps := 3 |}
      recording_policy
      (mk2 2 3 (λ w t, 10 * w + t)) (mk2 2 3 (λ _ _, 0%Z)) (mk2 2 3 (λ _ _, 0))
      (Shared (mk_cell (mk1 2 (λ _, []))
                       (mk1 2 (λ w, if decide (w = 0) then 0%Z else 2%Z))))
      (mk1 2 (λ w, if decide (w = 0) then 0%Z else 2%Z)) 0)
    as (_ & new_state & Hnew & Hrow).
  - reflexivity.
  - cbn. lia.
  - cbn. lia.
  - reflexivity.
  - intros [|[|k]] Hk; [| |cbn in Hk; lia].
    + eexists. split; [reflexivity|]. by repeat split.
    + eexists. split; [reflexivity|]. by repeat split.
  - exists new_state. split; [exact Hnew|]. exact Hrow.
Defined.

(** C9, where the code departs from it. With [horizon = 4] and a counter
    of 5 for the only worker, whose observations are 10, 11, 12, 13, the
    network is fed the single observation 13: the slice [[4 - 5:]] is
    [[-1:]]. The recomputed state records one replayed timestep, not the
    worker's whole trajectory. *)
Lemma replay_wraps_beyond_horizon :
  ∃ new_state,
    recompute_cell_states
      {| num_workers := 1; horizon := 4; driver_num_steps := 4 |}
      recording_policy
      (mk2 1 4 (λ _ t, 10 + t)) (mk2 1 4 (λ _ _, 0%Z)) (mk2 1 4 (λ _ _, 0))
      (Shared (mk_cell (mk1 1 (λ _, [])) (mk1 1 (λ _, 5%Z))))
    = Ok new_state ∧
    worker_state new_state 0 = inl ([13], 1%Z).
Proof. eexists. split; reflexivity. Qed.

(** The same rollout with a counter of 4 replays all four timesteps. *)
Lemma replay_at_horizon :
  ∃ new_state,
    recompute_cell_states
      {| num_workers := 1; horizon := 4; driver_num_steps := 4 |}
      recording_policy
      (mk2 1 4 (λ _ t, 10 + t)) (mk2 1 4 (λ _ _, 0%Z)) (mk2 1 4 (λ _ _, 0))
      (Shared (mk_cell (mk1 1 (λ _, [])) (mk1 1 (λ _, 4%Z))))
    = Ok new_state ∧
    worker_state new_state 0 = inl ([10; 11; 12; 13], 4%Z).
Proof. eexists. split; reflexivity. Qed.

End RecurrentRun.

(** * Further properties *)

(** ** The partitioner: outcomes, shape and use of the random source *)

Section PartitionerMore.
Import Random Minibatch.
Implicit Types (self : PPOAgent) (p ids : list nat).

(** The three ways a call can end, by its arguments. *)
Lemma compute_minibatch_ids_cases self M use_rnn g :
  (M = 0 ∨ horizon self / M = 0) ∧
    compute_minibatch_ids self M use_rnn g = Raise ZeroDivisionError
  ∨ (M ≠ 0 ∧ horizon self / M ≠ 0 ∧
     driver_num_steps self mod (horizon self / M) ≠ 0) ∧
    compute_minibatch_ids self M use_rnn g = Raise AssertionError
  ∨ (M ≠ 0 ∧ horizon self / M ≠ 0 ∧
     driver_num_steps self mod (horizon self / M) = 0) ∧
    ∃ ps, length ps = num_workers self ∧
      Forall (λ p, shuffled use_rnn p (seq 0 (horizon self))) ps ∧
      compute_minibatch_ids self M use_rnn g =
        Ok ((λ i, (λ p, slice p (i * (horizon self / M)) (horizon self / M)) <$> ps)
              <$> seq 0 M).
Proof.
  destruct (decide (M = 0)) as [HM|HM].
  { left. split; [by left|].
    unfold compute_minibatch_ids, compute_minibatch_ids_rng, floordiv.
    by rewrite decide_True. }
  destruct (decide (horizon self / M = 0)) as [Hs|Hs].
  { left. split; [by right|].
    unfold compute_minibatch_ids, compute_minibatch_ids_rng, floordiv, pymod.
    rewrite decide_False by done. cbn [bind]. by rewrite decide_True. }
  destruct (decide (driver_num_steps self mod (horizon self / M) = 0)) as [Hm|Hm].
  - right. right. split; [done|]. by apply compute_minibatch_ids_ok.
  - right. left. split; [done|].
    unfold compute_minibatch_ids, compute_minibatch_ids_rng, floordiv, pymod.
    rewrite decide_False by done. cbn [bind].
    rewrite decide_False by done. cbn [bind].
    apply Nat.eqb_neq in Hm. by rewrite Hm.
Qed.

Lemma div_zero_iff_lt (a b : nat) : b ≠ 0 → a / b = 0 ↔ a < b.
Proof. intros Hb. by apply Nat.div_small_iff. Qed.

(** X1. A call of [compute_minibatch_ids] raises [ZeroDivisionError]
    exactly when [num_minibatch] is 0 or exceeds [horizon]; it returns
    groups exactly when [1 <= num_minibatch <= horizon] and
    [driver._num_steps % (horizon // num_minibatch) == 0]; and it raises
    nothing but [ZeroDivisionError] and [AssertionError]: the indexing
    [ids[j][i]] of the last line is never out of range. *)
Theorem compute_minibatch_ids_outcomes self M use_rnn g :
  (compute_minibatch_ids self M use_rnn g = Raise ZeroDivisionError ↔
     M = 0 ∨ horizon self < M) ∧
  ((∃ groups, compute_minibatch_ids self M use_rnn g = Ok groups) ↔
     0 < M ≤ horizon self ∧
     driver_num_steps self mod (horizon self / M) = 0) ∧
  (∀ e, compute_minibatch_ids self M use_rnn g = Raise e →
     e = ZeroDivisionError ∨ e = AssertionError).
Proof.
  destruct (compute_minibatch_ids_cases self M use_rnn g)
    as [[Hc ->]|[[(HM & Hs & Hm) ->]|[(HM & Hs & Hm) (ps & _ & _ & ->)]]].
  - assert (Hz : M = 0 ∨ horizon self < M).
    { destruct Hc as [|Hs]; [by left|].
      destruct (decide (M = 0)); [by left|right]. by apply div_zero_iff_lt. }
    split; [done|]. split; [|intros e [= <-]; by left].
    split; [by intros [? ?]|]. intros [[? ?] _]. destruct Hz; lia.
  - rewrite div_zero_iff_lt in Hs by done.
    split; [split; [done|intros [|]; lia]|].
    split; [|intros e [= <-]; by right].
    split; [by intros [? ?]|]. by intros [_ ?].
  - rewrite div_zero_iff_lt in Hs by done.
    split; [split; [done|intros [|]; lia]|].
    split; [|done].
    split; [intros _; split; [lia|done]|by eexists].
Qed.

Lemma slice_facts use_rnn hor step M gi p :
  M * step ≤ hor → gi < M →
  shuffled use_rnn p (seq 0 hor) →
  let chunk := slice p (gi * step) step in
  length chunk = step ∧ (use_rnn = true → chunk = seq (gi * step) step).
Proof.
  intros Hmul Hgi [Hperm Heq] chunk.
  assert (Hlen : length p = hor).
  { apply Permutation_length in Hperm. by rewrite length_seq in Hperm. }
  assert (Hin : gi * step + step ≤ hor).
  { assert (S gi * step ≤ M * step) by (apply Nat.mul_le_mono_r; lia). lia. }
  split.
  - unfold chunk, slice. rewrite length_take, length_drop. lia.
  - intros Hrnn. unfold chunk. rewrite (Heq Hrnn). by apply slice_seq.
Qed.

Lemma take_shuffled_facts use_rnn hor n p :
  n ≤ hor → shuffled use_rnn p (seq 0 hor) →
  NoDup (take n p) ∧ length (take n p) = n ∧ (∀ x, x ∈ take n p → x < hor) ∧
  (use_rnn = true → take n p = seq 0 n).
Proof.
  intros Hn [Hperm Heq].
  assert (Hlen : length p = hor).
  { apply Permutation_length in Hperm. by rewrite length_seq in Hperm. }
  repeat split.
  - eapply sublist_NoDup; [|apply sublist_take]. rewrite Hperm. apply NoDup_seq.
  - rewrite length_take. lia.
  - intros x Hx. eapply elem_of_sublist in Hx; [|apply sublist_take].
    rewrite Hperm in Hx. apply elem_of_seq in Hx. lia.
  - intros Hrnn. rewrite (Heq Hrnn), take_seq. f_equal. lia.
Qed.

(** X2. Whatever [compute_minibatch_ids] returns is rectangular, whether
    or not [num_minibatch] divides [horizon]: [num_minibatch] groups, each
    with one index list per worker, each list of exactly
    [horizon // num_minibatch] indices. With [use_rnn] group [i] is, for
    every worker, the run [i*step, ..., (i+1)*step - 1]. *)
Theorem minibatch_groups_rectangular self M use_rnn g groups :
  compute_minibatch_ids self M use_rnn g = Ok groups →
  length groups = M ∧
  Forall (λ grp, length grp = num_workers self ∧
                 Forall (λ chunk, length chunk = horizon self / M) grp) groups ∧
  (use_rnn = true →
   groups = (λ i, replicate (num_workers self)
                    (seq (i * (horizon self / M)) (horizon self / M)))
            <$> seq 0 M).
Proof.
  intros Hok.
  destruct (compute_minibatch_ids_cases self M use_rnn g)
    as [[_ Hr]|[[_ Hr]|[(HM & Hs & Hm) (ps & Hlen & Hps & Heq)]]];
    [congruence|congruence|].
  rewrite Heq in Hok. injection Hok as <-.
  assert (Hle : M * (horizon self / M) ≤ horizon self)
    by (by apply Nat.Div0.mul_div_le).
  split; [by rewrite length_fmap, length_seq|]. split.
  - apply Forall_fmap, Forall_forall. intros gi Hgi. apply elem_of_seq in Hgi. cbn.
    split; [by rewrite length_fmap|].
    apply Forall_fmap. eapply Forall_impl; [exact Hps|]. intros p Hp. cbn.
    by apply (slice_facts use_rnn (horizon self) _ M); [|lia|].
  - intros Hrnn. apply list_fmap_ext. intros k gi Hgi.
    apply lookup_seq in Hgi as [-> Hlt]. cbn.
    apply list_eq_same_length with (num_workers self);
      [by rewrite length_replicate|by rewrite length_fmap|].
    intros j x y Hj. rewrite list_lookup_fmap.
    intros Hx Hy. apply lookup_replicate in Hy as [-> _].
    destruct (ps !! j) as [p|] eqn:Hp; [|done]. simplify_eq/=.
    rewrite Forall_forall in Hps.
    apply (slice_facts true (horizon self) _ M); [done|done| |done].
    apply Hps. by eapply list_elem_of_lookup_2.
Qed.

Lemma minibatch_groups_rectangular_witness :
  length [[[0; 1]; [0; 1]]; [[2; 3]; [2; 3]]] = 2 ∧
  Forall (λ grp, length grp = 2 ∧ Forall (λ chunk, length chunk = 5 / 2) grp)
         [[[0; 1]; [0; 1]]; [[2; 3]; [2; 3]]] ∧
  (true = true →
   [[[0; 1]; [0; 1]]; [[2; 3]; [2; 3]]] =
     (λ i, replicate 2 (seq (i * (5 / 2)) (5 / 2))) <$> seq 0 2).
Proof.
  exact (minibatch_groups_rectangular
           {| num_workers := 2; horizon := 5; driver_num_steps := 4 |}
           2 true (λ _, 0) [[[0; 1]; [0; 1]]; [[2; 3]; [2; 3]]] eq_refl).
Defined.

(** X3. Whatever [compute_minibatch_ids] returns, the indices that the
    groups hold for one worker are pairwise different, lie in
    [[0, horizon)], and number [num_minibatch * (horizon // num_minibatch)]:
    no time step of a worker is in two groups or twice in one. With
    [use_rnn] they are [0, ..., num_minibatch*step - 1] in order. *)
Theorem minibatch_no_index_twice self M use_rnn g groups w :
  compute_minibatch_ids self M use_rnn g = Ok groups →
  w < num_workers self →
  NoDup (worker_indices groups w) ∧
  length (worker_indices groups w) = M * (horizon self / M) ∧
  (∀ t, t ∈ worker_indices groups w → t < horizon self) ∧
  (use_rnn = true →
   worker_indices groups w = seq 0 (M * (horizon self / M))).
Proof.
  intros Hok Hw.
  destruct (compute_minibatch_ids_cases self M use_rnn g)
    as [[_ Hr]|[[_ Hr]|[(HM & Hs & Hm) (ps & Hlen & Hps & Heq)]]];
    [congruence|congruence|].
  rewrite Heq in Hok. injection Hok as <-.
  destruct (lookup_lt_is_Some_2 ps w) as [p Hp]; [lia|].
  rewrite (worker_indices_groups _ _ _ _ _ Hp).
  rewrite Forall_forall in Hps.
  apply (take_shuffled_facts use_rnn (horizon self)).
  - by apply Nat.Div0.mul_div_le.
  - apply Hps. by eapply list_elem_of_lookup_2.
Qed.

Lemma minibatch_no_index_twice_witness :
  NoDup (worker_indices [[[1; 2]]; [[3; 4]]] 0) ∧
  length (worker_indices [[[1; 2]]; [[3; 4]]] 0) = 2 * (5 / 2).
Proof.
  destruct (minibatch_no_index_twice
              {| num_workers := 1; horizon := 5; driver_num_steps := 4 |}
              2 false (λ _, 0) [[[1; 2]]; [[3; 4]]] 0 eq_refl)
    as (Hnd & Hlen & _); [cbn; lia|].
  by split.
Defined.

Lemma shuffle_from_draws {A : Type} i (g : rng) (x : list A) k :
  (shuffle_from i g x).2 k = g (i + k).
Proof.
  revert g x k. induction i as [|i IH]; intros g x k; [done|].
  cbn. by rewrite IH.
Qed.

Lemma chunk_worker_draws use_rnn hor step g ids r :
  chunk_worker use_rnn hor step g ids = Ok r →
  ∀ k, r.2 k = g ((if use_rnn then 0 else length ids - 1) + k).
Proof.
  unfold chunk_worker. destruct use_rnn.
  - destruct (range_step hor step); cbn; [|done]. by intros [= <-].
  - destruct (shuffle g ids) as [p g'] eqn:Hsh.
    destruct (range_step hor step); cbn; [|done]. intros [= <-] k. cbn.
    change g' with (p, g').2. rewrite <-Hsh. apply shuffle_from_draws.
Qed.

Lemma chunk_workers_draws use_rnn hor step n g idss r :
  Forall (λ ids, length ids = n) idss →
  chunk_workers use_rnn hor step g idss = Ok r →
  ∀ k, r.2 k = g ((if use_rnn then 0 else length idss * (n - 1)) + k).
Proof.
  intros Hall. revert g r.
  induction Hall as [|ids idss Hids _ IH]; intros g r; cbn [chunk_workers].
  - intros [= <-] k. cbn. by destruct use_rnn.
  - destruct (chunk_worker use_rnn hor step g ids) as [c|e] eqn:Hc; cbn; [|done].
    destruct (chunk_workers use_rnn hor step c.2 idss) as [cs|e] eqn:Hcs;
      cbn; [|done].
    intros [= <-] k. cbn.
    rewrite (IH _ _ Hcs), (chunk_worker_draws _ _ _ _ _ _ Hc), Hids.
    destruct use_rnn; f_equal; lia.
Qed.

(** X4. A call that returns leaves the random source untouched when
    [use_rnn] is set, and otherwise has called [randbelow] exactly
    [num_workers * (horizon - 1)] times, [horizon - 1] times for each
    worker's shuffle: the source after the call is the source before it
    advanced by that many draws. *)
Theorem minibatch_random_draws (self : PPOAgent) M use_rnn (g : rng) groups g' :
  compute_minibatch_ids_rng self M use_rnn g = Ok (groups, g') →
  ∀ k, g' k =
       g ((if use_rnn then 0 else num_workers self * (horizon self - 1)) + k).
Proof.
  unfold compute_minibatch_ids_rng.
  destruct (floordiv (horizon self) M) as [step|e]; cbn [bind]; [|done].
  destruct (pymod (driver_num_steps self) step) as [r|e]; cbn [bind]; [|done].
  destruct (negb (r =? 0)); [done|].
  destruct (chunk_workers use_rnn (horizon self) step g
              ((λ _, seq 0 (horizon self)) <$> seq 0 (num_workers self)))
    as [ids|e] eqn:Hids; cbn [bind]; [|done].
  destruct (comprehension _ (seq 0 M)) as [gs|e]; cbn [bind]; [|done].
  intros [= <- <-] k.
  assert (Hall : Forall (λ ids, length ids = horizon self)
            ((λ _, seq 0 (horizon self)) <$> seq 0 (num_workers self))).
  { apply Forall_fmap, Forall_forall. intros ? _. cbn. apply length_seq. }
  rewrite (chunk_workers_draws _ _ _ _ _ _ _ Hall Hids).
  by rewrite length_fmap, length_seq.
Qed.

Lemma minibatch_random_draws_witness :
  ∃ groups g',
    compute_minibatch_ids_rng
      {| num_workers := 2; horizon := 4; driver_num_steps := 4 |}
      2 false (λ k, k) = Ok (groups, g') ∧
    g' 0 = 6.
Proof.
  eexists _, _. split; [reflexivity|].
  exact (minibatch_random_draws
           {| num_workers := 2; horizon := 4; driver_num_steps := 4 |}
           2 false (λ k, k) _ _ eq_refl 0).
Defined.

End PartitionerMore.

(** ** The estimator: edge cases *)

Section EstimatorMore.
Import Tensor Advantage.
Context {Sc F : Type} `{!Arith Sc F}.
Implicit Types (discount gae_parameter : Sc) (rewards values dones : t2 F).


Lemma broadcast_dim_zero a b n :
  broadcast_dim a b = Ok n → a = 0 ∨ b = 0 → n = 0.
Proof.
  unfold broadcast_dim. repeat case_decide; intros [= <-] [|]; lia.
Qed.

Lemma zip2_cols_zero {A B C : Type} (f : A → B → C) (a : t2 A) (b : t2 B) c :
  zip2 f a b = Ok c → dim1 a = 0 ∨ dim1 b = 0 → dim1 c = 0.
Proof.
  unfold zip2.
  destruct (broadcast_dim (dim0 a) (dim0 b)) as [n|e]; cbn [bind]; [|done].
  destruct (broadcast_dim (dim1 a) (dim1 b)) as [m|e] eqn:Hm; cbn [bind]; [|done].
  intros [= <-] Hz. cbn. by eapply broadcast_dim_zero.
Qed.

(** X5. On a rollout of no time steps (a rewards tensor with an empty time
    axis) [compute_advantages] raises, whatever the other arguments are: if
    the residuals can be formed at all they have no last column for
    [deltas[:, -1]]. It never returns an empty advantage tensor. *)
Theorem compute_advantages_empty_rollout discount gae_parameter
    rewards values dones :
  dim1 rewards = 0 →
  ∃ e, compute_advantages discount gae_parameter rewards values dones = Raise e.
Proof.
  intros Hr. unfold compute_advantages, td_residuals.
  destruct (zip2 mul _ (tail_cols values)) as [b|e]; cbn [bind]; [|by eexists].
  destruct (zip2 add rewards b) as [tg|e] eqn:Htg; cbn [bind]; [|by eexists].
  destruct (zip2 sub tg (init_cols values)) as [d|e] eqn:Hd; cbn [bind];
    [|by eexists].
  assert (dim1 d = 0) as Hd0.
  { eapply zip2_cols_zero; [done|]. left.
    eapply zip2_cols_zero; [done|]. by left. }
  unfold last_col. rewrite decide_True by done. by eexists.
Qed.

(** X6. [values] must carry the bootstrap column: with dones of shape
    [[W, H]], [H >= 3], and a values tensor of the same shape [[W, H]],
    the product [non_terminal * values[:, 1:]] has operands of [H] and
    [H - 1] columns and [compute_advantages] raises. *)
Theorem compute_advantages_needs_bootstrap discount gae_parameter
    rewards values dones (W H : nat) :
  dim0 dones = W ∧ dim1 dones = H →
  dim0 values = W ∧ dim1 values = H →
  3 ≤ H →
  compute_advantages discount gae_parameter rewards values dones
    = Raise InvalidArgumentError.
Proof.
  intros [Hd0 Hd1] [Hv0 Hv1] HH.
  unfold compute_advantages, td_residuals, zip2 at 1.
  cbn [map2d dim0 dim1 tail_cols]. rewrite Hd0, Hv0, broadcast_dim_same.
  cbn [bind]. rewrite Hd1, Hv1. unfold broadcast_dim.
  rewrite !decide_False by lia. done.
Qed.

End EstimatorMore.

Section EstimatorMoreRun.
Import Tensor Advantage.

Lemma compute_advantages_empty_rollout_witness :
  ∃ e, compute_advantages (F:=Z) 2%Z 3%Z
         (mk2 2 0 (λ _ _, 0%Z)) (mk2 2 1 (λ _ _, 0%Z)) (mk2 2 0 (λ _ _, 0%Z))
       = Raise e.
Proof.
  exact (compute_advantages_empty_rollout (F:=Z) 2%Z 3%Z
           (mk2 2 0 (λ _ _, 0%Z)) (mk2 2 1 (λ _ _, 0%Z)) (mk2 2 0 (λ _ _, 0%Z))
           eq_refl).
Defined.

Lemma compute_advantages_needs_bootstrap_witness :
  compute_advantages (F:=Z) 2%Z 3%Z
    (mk2 2 3 (λ _ _, 1%Z)) (mk2 2 3 (λ _ _, 0%Z)) (mk2 2 3 (λ _ _, 0%Z))
  = Raise InvalidArgumentError.
Proof.
  apply (compute_advantages_needs_bootstrap (F:=Z) 2%Z 3%Z
           (mk2 2 3 (λ _ _, 1%Z)) (mk2 2 3 (λ _ _, 0%Z)) (mk2 2 3 (λ _ _, 0%Z))
           2 3); [by split|by split|lia].
Defined.

End EstimatorMoreRun.

(** ** Sums and means over the reals *)

Section Means.
Import Reals Lra.
Import Tensor Loss.
Local Open Scope R_scope.


Lemma sum_upto_scale n (c : R) (f : nat → R) :
  sum_upto n (λ k, c * f k) = c * sum_upto n f.
Proof. induction n as [|n IH]; cbn; [lra|rewrite IH; lra]. Qed.




Lemma sum_upto_nonneg n (f : nat → R) :
  (∀ i, (i < n)%nat → 0 <= f i) → 0 <= sum_upto n f.
Proof.
  intros Hf. induction n as [|n IH]; cbn; [lra|].
  pose proof (Hf n ltac:(lia)). pose proof (IH ltac:(intros; apply Hf; lia)).
  lra.
Qed.


Lemma INR_cells_pos (W T : nat) : (0 < W * T)%nat → 0 < INR (W * T).
Proof. intros Hpos. apply lt_0_INR. lia. Qed.


Lemma mean_over_scale W T (c : R) (f : nat → nat → R) :
  mean_over W T (λ w t, c * f w t) = c * mean_over W T f.
Proof.
  unfold mean_over.
  rewrite (sum_upto_ext W _ (λ w, c * sum_upto T (λ t, f w t)))
    by (intros; apply sum_upto_scale).
  rewrite sum_upto_scale. lra.
Qed.

Lemma mean_over_ext W T (f h : nat → nat → R) :
  (∀ w t, (w < W)%nat → (t < T)%nat → f w t = h w t) →
  mean_over W T f = mean_over W T h.
Proof.
  intros Hfh. unfold mean_over. f_equal.
  apply sum_upto_ext. intros w Hw. apply sum_upto_ext. intros t Ht. by apply Hfh.
Qed.



Lemma reduce_mean_mean_over (t : t2 R) :
  reduce_mean t = mean_over (dim0 t) (dim1 t) (λ w j, at2 t w j).
Proof. unfold reduce_mean, mean_over. by rewrite reduce_sum_nested. Qed.

End Means.

(** ** The estimator over the reals *)

Section RealEstimator.
Import Reals Lra.
Import Tensor Advantage Loss RealArith Train.
Local Open Scope R_scope.
Implicit Types (rewards values dones : t2 R).











End RealEstimator.

(** ** The losses and the normalisation *)

Section LossFacts.
Import Reals Lra.
Import Tensor Loss Train.
Local Open Scope R_scope.









(** X12. For values and returns of one non-empty shape,
    [value_function_loss] returns a number that is never negative, and 0
    when the values equal the returns. *)
Theorem value_function_loss_nonneg (values returns : t2 R) (W T : nat) :
  dim0 values = W ∧ dim1 values = T →
  dim0 returns = W ∧ dim1 returns = T →
  (0 < W * T)%nat →
  ∃ L, value_function_loss values returns = Ok L ∧ 0 <= L ∧
    ((∀ w t, (w < W)%nat → (t < T)%nat → at2 values w t = at2 returns w t) →
       L = 0).
Proof.
  intros [Hv0 Hv1] [Hr0 Hr1] Hpos. unfold value_function_loss.
  destruct (zip2_same Rminus values returns) as (d & -> & Hd0 & Hd1 & Hd);
    [lia|lia|]. cbn [bind].
  eexists. split; [done|]. rewrite reduce_mean_mean_over.
  cbn [map2d dim0 dim1 at2].
  rewrite Hd0, Hd1, Hv0, Hv1. split.
  - unfold mean_over. apply Rmult_le_pos.
    + apply sum_upto_nonneg. intros w Hw. apply sum_upto_nonneg. intros t Ht.
      apply pow2_ge_0.
    + left. apply Rinv_0_lt_compat. by apply INR_cells_pos.
  - intros Heq.
    rewrite (mean_over_ext W T _ (λ _ _, 0 * 0)).
    + rewrite (mean_over_scale W T 0 (λ _ _, 0)). lra.
    + intros w t Hw Ht. rewrite Hd by lia. rewrite Heq by done. lra.
Qed.

Lemma value_function_loss_nonneg_witness :
  ∃ L, value_function_loss (mk2 1 2 (λ _ _, 3)) (mk2 1 2 (λ _ _, 5)) = Ok L ∧
       0 <= L.
Proof.
  destruct (value_function_loss_nonneg
              (mk2 1 2 (λ _ _, 3)) (mk2 1 2 (λ _ _, 5)) 1 2)
    as (L & HL & Hnn & _); [by split|by split|lia|].
  exists L. by split.
Defined.



End LossFacts.

(** ** The collector: the whole batch *)

Section CollectorMore.
Import Tensor Policy Collector.
Context {Obs Act Rew F Hid : Type}.
Variables (cast_bool : bool → F) (cast_reward : Rew → F).

(** Every field of a batched step has [W] entries. *)
Ltac batched_all :=
  eapply Forall_impl; [eassumption|]; by intros ? (?&?&?&?&?&?).

(** X14. The batch is built from the whole rollout buffer, what it held on
    entry followed by the steps the driver hands over: when these [n >= 1]
    batched steps of [W] workers are well-shaped, the method returns with
    the buffer cleared, observations, rewards, actions and probabilities of
    shape [[W, n]] and values of shape [[W, n+1]]; entry [t] of each is
    field by field that of buffer entry [t] (the rewards cast), column [n]
    of the values is the value the network returns, in inference mode, for
    the final observation, and [last_policy_state] is the state that
    [driver.run] returns. Only the dones are shifted. *)
Theorem collected_batch_follows_buffer (self : PPOAgent)
    (driver : Driver Obs Act Rew F Hid) (pol : policy Obs Act F Hid)
    (memory : list (Trajectory Obs Act Rew F))
    (state : policy_state Hid) (W : nat)
    (steps : list (Trajectory Obs Act Rew F))
    (last_time_step : TimeStep Obs) (last_state : policy_state Hid)
    (out : outputs Act F Hid) :
  run driver state (horizon self) = (steps, (last_time_step, last_state)) →
  memory ++ steps ≠ [] →
  Forall (batched W) (memory ++ steps) →
  len (ts_step_type last_time_step) = W →
  actor_critic_network pol
    (expand_dims1 (ts_observation last_time_step))
    (map2d cast_bool (expand_dims1 (is_last (ts_step_type last_time_step))))
    last_state None false = Ok out →
  dim0 (out_value out) = W ∧ dim1 (out_value out) = 1 →
  ∃ exp, collect_experiences cast_bool cast_reward self driver pol memory state
           = Ok (exp, []) ∧
    last_policy_state exp = last_state ∧
    (dim0 (observations exp) = W ∧ dim0 (rewards exp) = W ∧
     dim0 (dones exp) = W ∧ dim0 (actions exp) = W ∧
     dim0 (probs exp) = W ∧ dim0 (values exp) = W) ∧
    (dim1 (observations exp) = length (memory ++ steps) ∧
     dim1 (rewards exp) = length (memory ++ steps) ∧
     dim1 (dones exp) = length (memory ++ steps) ∧
     dim1 (actions exp) = length (memory ++ steps) ∧
     dim1 (probs exp) = length (memory ++ steps) ∧
     dim1 (values exp) = S (length (memory ++ steps))) ∧
    (∀ w t s, (memory ++ steps) !! t = Some s →
       at2 (observations exp) w t = at1 (observation s) w ∧
       at2 (rewards exp) w t = cast_reward (at1 (reward s) w) ∧
       at2 (actions exp) w t = at1 (action s) w ∧
       at2 (probs exp) w t = at1 (policy_info s).1 w ∧
       at2 (values exp) w t = at1 (policy_info s).2 w) ∧
    (∀ w, at2 (values exp) w (length (memory ++ steps)) = at2 (out_value out) w 0).
Proof.
  intros Hrun Hne Hsteps Hlast Hnet [Hv0 Hv1].
  unfold collect_experiences. rewrite Hrun.
  set (buffer := memory ++ steps) in *.
  rewrite Hnet. cbn [bind].
  unfold squeeze1 at 1. rewrite decide_True by done. cbn [bind].
  destruct (stack1_fmap_ok observation buffer [] W)
    as (tobs & Hobs & Hobs0 & Hobs1 & Hobsat); [by destruct buffer| |done|].
  { batched_all. }
  rewrite app_nil_r in Hobs, Hobsat. rewrite Hobs. cbn [bind].
  destruct (stack1_fmap_ok reward buffer [] W)
    as (trew & Hrew & Hrew0 & Hrew1 & Hrewat); [by destruct buffer| |done|].
  { batched_all. }
  rewrite app_nil_r in Hrew, Hrewat. rewrite Hrew. cbn [bind].
  unfold stack_dones, squeeze1. cbn [expand_dims1 dim1].
  rewrite decide_True by done. cbn [bind].
  set (final := mk1 _ _).
  destruct (stack1_fmap_ok (λ s, is_last (step_type s)) (drop 1 buffer) [final] W)
    as (tdn & Hdn & Hdn0 & Hdn1 & Hdnat).
  { by destruct (drop 1 buffer). }
  { apply Forall_drop. batched_all. }
  { by repeat constructor. }
  rewrite Hdn. cbn [bind].
  destruct (stack1_fmap_ok action buffer [] W)
    as (tact & Hact & Hact0 & Hact1 & Hactat); [by destruct buffer| |done|].
  { batched_all. }
  rewrite app_nil_r in Hact, Hactat. rewrite Hact. cbn [bind].
  destruct (stack1_fmap_ok (λ s, (policy_info s).1) buffer [] W)
    as (tpr & Hpr & Hpr0 & Hpr1 & Hprat); [by destruct buffer| |done|].
  { batched_all. }
  rewrite app_nil_r in Hpr, Hprat. rewrite Hpr. cbn [bind].
  destruct (stack1_fmap_ok (λ s, (policy_info s).2) buffer
              [mk1 (dim0 (out_value out)) (λ i, at2 (out_value out) i 0)] W)
    as (tval & Hval & Hval0 & Hval1 & Hvalat).
  { by destruct buffer. }
  { batched_all. }
  { by repeat constructor. }
  rewrite Hval. cbn [bind].
  eexists. split; [done|].
  cbn [last_policy_state observations rewards dones actions probs values
       map2d dim0 dim1 at2].
  assert (Hn : 0 < length buffer) by (destruct buffer; [done|cbn; lia]).
  rewrite length_drop in Hdn1. cbn [length] in Hobs1, Hrew1, Hdn1, Hact1, Hpr1, Hval1.
  split; [done|]. split; [done|]. split; [repeat split; lia|]. split.
  - intros w t s Hs.
    assert (Hf : ∀ {B} (f : Trajectory Obs Act Rew F → B),
              (f <$> buffer) !! t = Some (f s)).
    { intros B f. by rewrite list_lookup_fmap, Hs. }
    rewrite (Hobsat w t _ (Hf _ observation)).
    rewrite (Hrewat w t _ (Hf _ reward)).
    rewrite (Hactat w t _ (Hf _ action)).
    rewrite (Hprat w t _ (Hf _ (λ s, (policy_info s).1))).
    rewrite (Hvalat w t (policy_info s).2); [done|].
    rewrite lookup_app_l by (rewrite length_fmap; by eapply lookup_lt_Some).
    apply Hf.
  - intros w.
    rewrite (Hvalat w (length buffer)
               (mk1 (dim0 (out_value out)) (λ i, at2 (out_value out) i 0)));
      [done|].
    rewrite lookup_app_r by (by rewrite length_fmap).
    by rewrite length_fmap, Nat.sub_diag.
Qed.

(** X15. When the buffer is empty on entry and the driver hands over no
    step, the method raises: there is nothing to stack. It never returns a
    batch of no time steps. *)
Theorem collect_nothing_raises (self : PPOAgent)
    (driver : Driver Obs Act Rew F Hid) (pol : policy Obs Act F Hid)
    (state : policy_state Hid) :
  (run driver state (horizon self)).1 = [] →
  ∃ e, collect_experiences cast_bool cast_reward self driver pol [] state
       = Raise e.
Proof.
  intros Hrun. unfold collect_experiences.
  destruct (run driver state (horizon self)) as [steps [lts ls]].
  cbn in Hrun. subst steps. cbn [app].
  destruct (actor_critic_network pol _ _ ls None false) as [out|e];
    cbn [bind]; [|by eexists].
  destruct (squeeze1 (out_value out)) as [lv|e]; cbn [bind]; [|by eexists].
  by eexists.
Qed.
End CollectorMore.

Section CollectorMoreRun.
Import Tensor Policy Collector Doubles.

Lemma collected_batch_follows_buffer_witness :
  ∃ exp,
    collect_experiences (λ b : bool, if b then 1%Z else 0%Z) (λ r : Z, r)
      {| num_workers := 1; horizon := 2; driver_num_steps := 2 |}
      two_step_driver recording_policy [] (Shared (blank 1)) = Ok (exp, []) ∧
    at2 (observations exp) 0 1 = 11 ∧ at2 (rewards exp) 0 0 = 1%Z.
Proof.
  edestruct (collected_batch_follows_buffer (λ b : bool, if b then 1%Z else 0%Z)
              (λ r : Z, r)
              {| num_workers := 1; horizon := 2; driver_num_steps := 2 |}
              two_step_driver recording_policy [] (Shared (blank 1)) 1
              two_steps
              {| ts_step_type := mk1 1 (λ _, MID);
                 ts_observation := mk1 1 (λ _, 12) |}
              (Shared (blank 1)))
    as (exp & Hexp & _ & _ & _ & Hat & _).
  - reflexivity.
  - done.
  - repeat constructor.
  - reflexivity.
  - reflexivity.
  - by split.
  - exists exp. split; [exact Hexp|]. split.
    + by destruct (Hat 0 1 _ eq_refl) as (-> & _).
    + by destruct (Hat 0 0 _ eq_refl) as (_ & -> & _).
Defined.

Lemma collect_nothing_raises_witness :
  ∃ e,
    collect_experiences (λ b : bool, if b then 1%Z else 0%Z) (λ r : Z, r)
      {| num_workers := 1; horizon := 0; driver_num_steps := 0 |}
      {| run := λ state _,
           ([], ({| ts_step_type := mk1 1 (λ _, FIRST);
                    ts_observation := mk1 1 (λ _, 12) |}, state)) |}
      recording_policy [] (Shared (blank 1)) = Raise e.
Proof.
  exact (collect_nothing_raises (λ b : bool, if b then 1%Z else 0%Z) (λ r : Z, r)
      {| num_workers := 1; horizon := 0; driver_num_steps := 0 |}
      {| run := λ state _,
           ([], ({| ts_step_type := mk1 1 (λ _, FIRST);
                    ts_observation := mk1 1 (λ _, 12) |}, state)) |}
      recording_policy (Shared (blank 1)) eq_refl).
Defined.

End CollectorMoreRun.

(** ** The recomputation: every counter, every worker *)

Section RecurrentMore.
Import Tensor Policy Recurrent.
Context {Obs Act F Hid : Type}.

(** When the counter [n] of worker [i] exceeds [horizon], the slice
    bound [horizon - n] is negative and counts from the end of the time
    axis: the network is called, in training mode and from
    [get_initial_state(1)], on the worker's observations, dones and
    actions from index [2*horizon - n] on (from 0 when [n >= 2*horizon]),
    which are the last [min(n - horizon, horizon)] time steps. *)
Theorem replay_beyond_horizon (self : PPOAgent)
    (pol : policy Obs Act F Hid) (observations : t2 Obs) (dones : t2 F)
    (actions : t2 Act) (rollout : t1 Z) (i : nat) (n : nat) :
  i < len rollout → at1 rollout i = Z.of_nat n →
  horizon self < n →
  (i < dim0 observations ∧ dim1 observations = horizon self) →
  (i < dim0 dones ∧ dim1 dones = horizon self) →
  (i < dim0 actions ∧ dim1 actions = horizon self) →
  let start := 2 * horizon self - n in
  let fed := horizon self - start in
  fed = (n - horizon self) `min` horizon self ∧
  recompute_worker self pol observations dones actions rollout i =
    do out <- actor_critic_network pol
      (mk2 1 fed (λ _ k, at2 observations i (start + k)))
      (mk2 1 fed (λ _ k, at2 dones i (start + k)))
      (get_initial_state pol 1)
      (Some (mk2 1 fed (λ _ k, at2 actions i (start + k))))
      true;
    Ok (out_state out).
Proof.
  intros Hi Hn Hrange [Ho0 Ho1] [Hd0 Hd1] [Ha0 Ha1] start fed.
  split; [unfold fed, start; lia|].
  unfold recompute_worker, item. rewrite decide_True by done. cbn [bind].
  rewrite decide_False by lia.
  unfold row_suffix, row_from. rewrite !decide_True by done. cbn [bind].
  rewrite Ho1, Hd1, Ha1, Hn.
  assert (Hstart :
    slice_start (horizon self) (Z.of_nat (horizon self) - Z.of_nat n) = start).
  { unfold slice_start, start.
    destruct (Z.ltb_spec (Z.of_nat (horizon self) - Z.of_nat n) 0); lia. }
  rewrite Hstart. done.
Qed.

(** X17. With no worker [recompute_cell_states] raises: there is no
    per-worker state to concatenate. *)
Theorem recompute_without_workers (self : PPOAgent)
    (pol : policy Obs Act F Hid) (observations : t2 Obs) (dones : t2 F)
    (actions : t2 Act) (last_policy_state : policy_state Hid) :
  num_workers self = 0 →
  ∃ e, recompute_cell_states self pol observations dones actions
         last_policy_state = Raise e.
Proof.
  intros HW. unfold recompute_cell_states.
  destruct (rollout_steps pol last_policy_state) as [rollout|e];
    cbn [bind]; [|by eexists].
  rewrite HW. cbn. unfold batch_states.
  destruct (shared_params pol); cbn; by eexists.
Qed.

(** X18. Batching keeps the workers in order: when every worker's
    recomputation yields a one-row state of the structure that
    [shared_params] announces, the method returns a state whose row [k] is
    the state recomputed for worker [k], for every worker. *)
Theorem recomputed_rows_follow_workers (self : PPOAgent)
    (pol : policy Obs Act F Hid) (observations : t2 Obs) (dones : t2 F)
    (actions : t2 Act) (last_policy_state : policy_state Hid)
    (rollout : t1 Z) :
  rollout_steps pol last_policy_state = Ok rollout →
  0 < num_workers self →
  (∀ k, k < num_workers self →
     ∃ s, recompute_worker self pol observations dones actions rollout k = Ok s ∧
          worker_batch pol s) →
  ∃ new_state,
    recompute_cell_states self pol observations dones actions last_policy_state
      = Ok new_state ∧
    ∀ k s, k < num_workers self →
      recompute_worker self pol observations dones actions rollout k = Ok s →
      worker_state new_state k = worker_state s 0.
Proof.
  intros Hsteps HW Hall.
  unfold recompute_cell_states. rewrite Hsteps. cbn [bind].
  destruct (comprehension_total
              (recompute_worker self pol observations dones actions rollout)
              (seq 0 (num_workers self))) as [cell_states Hcomp].
  { intros k Hk. apply elem_of_seq in Hk.
    destruct (Hall k) as (s & Hs & _); [lia|]. by exists s. }
  rewrite Hcomp. cbn [bind]. apply comprehension_inv in Hcomp.
  destruct (batch_states_row pol cell_states) as (new_state & Hnew & Hrow).
  - intros ->. apply Forall2_length in Hcomp. rewrite length_seq in Hcomp.
    cbn in Hcomp. lia.
  - apply Forall_forall. intros s Hs.
    apply list_elem_of_lookup in Hs as [k Hk].
    destruct (Forall2_lookup_r _ _ _ _ _ Hcomp Hk) as (k' & Hk' & Heq).
    apply lookup_seq in Hk' as [-> Hlt].
    destruct (Hall k Hlt) as (s' & Hs' & Hb). cbn in Heq. congruence.
  - exists new_state. split; [done|]. intros k s Hk Hs. apply Hrow.
    destruct (Forall2_lookup_l _ _ _ k k Hcomp) as (s' & Hs' & Heq);
      [by apply lookup_seq_lt|]. cbn in Heq. congruence.
Qed.
End RecurrentMore.

Section RecurrentMoreRun.
Import Tensor Policy Recurrent Doubles.

Lemma replay_suffix_within_horizon_witness :
  recompute_worker
    {| num_workers := 1; horizon := 4; driver_num_steps := 4 |}
    recording_policy
    (mk2 1 4 (λ _ t, 10 + t)) (mk2 1 4 (λ _ _, 0%Z)) (mk2 1 4 (λ _ _, 0))
    (mk1 1 (λ _, 3%Z)) 0
  = Ok (Shared (fed (mk2 1 3 (λ _ k, 10 + (1 + k))))).
Proof.
  rewrite (replay_suffix_within_horizon
    {| num_workers := 1; horizon := 4; driver_num_steps := 4 |}
    recording_policy
    (mk2 1 4 (λ _ t, 10 + t)) (mk2 1 4 (λ _ _, 0%Z)) (mk2 1 4 (λ _ _, 0))
    (mk1 1 (λ _, 3%Z)) 0 3); cbn; try done; lia.
Defined.

Lemma replay_beyond_horizon_witness :
  recompute_worker
    {| num_workers := 1; horizon := 4; driver_num_steps := 4 |}
    recording_policy
    (mk2 1 4 (λ _ t, 10 + t)) (mk2 1 4 (λ _ _, 0%Z)) (mk2 1 4 (λ _ _, 0))
    (mk1 1 (λ _, 6%Z)) 0
  = Ok (Shared (fed (mk2 1 2 (λ _ k, 10 + (2 + k))))).
Proof.
  edestruct (replay_beyond_horizon
    {| num_workers := 1; horizon := 4; driver_num_steps := 4 |}
    recording_policy
    (mk2 1 4 (λ _ t, 10 + t)) (mk2 1 4 (λ _ _, 0%Z)) (mk2 1 4 (λ _ _, 0))
    (mk1 1 (λ _, 6%Z)) 0 6) as [_ Heq];
    [| | | | | |rewrite Heq; reflexivity]; cbn; try done; lia.
Defined.

Lemma recompute_without_workers_witness :
  ∃ e, recompute_cell_states
         {| num_workers := 0; horizon := 4; driver_num_steps := 4 |}
         recording_policy
         (mk2 0 4 (λ _ t, t)) (mk2 0 4 (λ _ _, 0%Z)) (mk2 0 4 (λ _ _, 0))
         (Shared (blank 0)) = Raise e.
Proof.
  exact (recompute_without_workers
         {| num_workers := 0; horizon := 4; driver_num_steps := 4 |}
         recording_policy
         (mk2 0 4 (λ _ t, t)) (mk2 0 4 (λ _ _, 0%Z)) (mk2 0 4 (λ _ _, 0))
         (Shared (blank 0)) eq_refl).
Defined.

Lemma recomputed_rows_follow_workers_witness :
  ∃ new_state,
    recompute_cell_states
      {| num_workers := 2; horizon := 3; driver_num_steps := 3 |}
      recording_policy
      (mk2 2 3 (λ w t, 10 * w + t)) (mk2 2 3 (λ _ _, 0%Z)) (mk2 2 3 (λ _ _, 0))
      (Shared (mk_cell (mk1 2 (λ _, []))
                       (mk1 2 (λ w, if decide (w = 0) then 0%Z else 2%Z))))
    = Ok new_state ∧
    worker_state new_state 1 = inl ([11; 12], 2%Z).
Proof.
  destruct (recomputed_rows_follow_workers
      {| num_workers := 2; horizon := 3; driver_num_steps := 3 |}
      recording_policy
      (mk2 2 3 (λ w t, 10 * w + t)) (mk2 2 3 (λ _ _, 0%Z)) (mk2 2 3 (λ _ _, 0))
      (Shared (mk_cell (mk1 2 (λ _, []))
                       (mk1 2 (λ w, if decide (w = 0) then 0%Z else 2%Z))))
      (mk1 2 (λ w, if decide (w = 0) then 0%Z else 2%Z)))
    as (new_state & Hnew & Hrow).
  - reflexivity.
  - cbn. lia.
  - intros [|[|k]] Hk; [| |cbn in Hk; lia].
    + eexists. split; [reflexivity|]. by repeat split.
    + eexists. split; [reflexivity|]. by repeat split.
  - exists new_state. split; [exact Hnew|].
    exact (Hrow 1 _ ltac:(cbn; lia) eq_refl).
Defined.
End RecurrentMoreRun.
